(** * rumps: menu-tree construction, deferred binding and callback dispatch

    A shallow embedding of [rumps/rumps.py] (Python 2, PyObjC).  Python objects
    that the code mutates in place (MenuItem instances, the top-level
    OrderedDict, Timer instances, the App instance) live in explicit stores;
    exceptions are values of type [exn]; every operation returns an [outcome]
    together with the store it leaves behind, because a raised exception does
    not undo the mutations made before it. *)

From Stdlib Require Import String Ascii List ZArith NArith QArith Lia Bool.
From Stdlib Require Import DecimalString DecimalN.
From stdpp Require Import base option list.
Import ListNotations.
Local Open Scope string_scope.
Local Open Scope list_scope.

(** ** Python values *)

(** Object identity of a MenuItem instance: its index in the store. *)
Abbreviation ref := nat (only parsing).

(** The values a menu declaration, a dictionary key or a callback argument can
    be.  [PItem r] is a MenuItem instance (an OrderedDict subclass, hence also
    a Mapping); [PSep i] is the object [NSMenuItem.separatorItem] evaluates to,
    with [i] its [id()]; [PObj i] is any other object, known by identity. *)
#[local] Unset Elimination Schemes.
Inductive pyval : Type :=
| PNone
| PStr (s : string)
| PInt (z : Z)
| PTuple (xs : list pyval)
| PList (xs : list pyval)
| PDict (kvs : list (pyval * pyval))
| PItem (r : ref)
| PSep (i : N)
| PObj (i : N).
#[local] Set Elimination Schemes.

(** Element-wise comparison of two sequences. *)
Definition list_eqb_with {A} (eqb : A -> A -> bool) : list A -> list A -> bool :=
  fix go (xs ys : list A) : bool :=
    match xs, ys with
    | [], [] => true
    | x :: xs', y :: ys' => eqb x y && go xs' ys'
    | _, _ => false
    end.

(** Python's [==] on the values used as dictionary keys (structural). *)
Fixpoint pyval_eqb (a b : pyval) {struct a} : bool :=
  match a, b with
  | PNone, PNone => true
  | PStr s, PStr t => String.eqb s t
  | PInt x, PInt y => Z.eqb x y
  | PTuple xs, PTuple ys => list_eqb_with pyval_eqb xs ys
  | PList xs, PList ys => list_eqb_with pyval_eqb xs ys
  | PDict xs, PDict ys =>
      list_eqb_with (fun kv kv' =>
                       match kv, kv' with
                       | (k, v), (k', v') => pyval_eqb k k' && pyval_eqb v v'
                       end) xs ys
  | PItem r, PItem r' => Nat.eqb r r'
  | PSep i, PSep j => N.eqb i j
  | PObj i, PObj j => N.eqb i j
  | _, _ => false
  end.

(** [hash(v)] succeeds: lists, dicts and MenuItem instances (dict subclasses)
    are unhashable, and so is a tuple holding one of them. *)
Fixpoint hashable (v : pyval) : bool :=
  match v with
  | PNone | PStr _ | PInt _ | PSep _ | PObj _ => true
  | PTuple xs => forallb hashable xs
  | PList _ | PDict _ | PItem _ => false
  end.

(** [type(v).__name__]. *)
Definition type_name (v : pyval) : string :=
  match v with
  | PNone => "NoneType"
  | PStr _ => "str"
  | PInt _ => "int"
  | PTuple _ => "tuple"
  | PList _ => "list"
  | PDict _ => "dict"
  | PItem _ => "MenuItem"
  | PSep _ => "native_selector"
  | PObj _ => "object"
  end.

(** ** Exceptions and outcomes *)

Inductive exn_class : Type :=
| TypeError | ValueError | KeyError | AttributeError | IOError
| OtherError (name : string).

(** [exn_msg] is the message template as written in the source (for an
    error that Python itself raises, a short form of Python's message) and
    [exn_args] the values substituted for its [{}] fields, in order. *)
Record exn : Type := mk_exn {
  exn_cls : exn_class;
  exn_msg : string;
  exn_args : list pyval
}.

Definition is_TypeError (e : exn) : bool :=
  match exn_cls e with TypeError => true | _ => false end.

(** [Undefined] marks the two places the embedding does not cover: a reference
    to an object that is not in the store (Python has no dangling references)
    and iteration over a MenuItem instance given where an iterable is
    expected. *)
Inductive outcome (A : Type) : Type :=
| Returns (a : A)
| Raises (e : exn)
| Undefined.
Arguments Returns {A} a.
Arguments Raises {A} e.
Arguments Undefined {A}.

(** A computation over a store [S]: the store survives an exception. *)
Definition M (S A : Type) : Type := S -> outcome A * S.

Definition ret {S A} (a : A) : M S A := fun s => (Returns a, s).
Definition raise {S A} (e : exn) : M S A := fun s => (Raises e, s).
Definition undefined {S A} : M S A := fun s => (Undefined, s).
Definition bind {S A B} (m : M S A) (k : A -> M S B) : M S B :=
  fun s =>
    match m s with
    | (Returns a, s') => k a s'
    | (Raises e, s') => (Raises e, s')
    | (Undefined, s') => (Undefined, s')
    end.
Definition get {S} : M S S := fun s => (Returns s, s).
Definition put {S} (s : S) : M S unit := fun _ => (Returns tt, s).

Declare Scope py_scope.
Delimit Scope py_scope with py.
Notation "x <- m ;; k" := (bind m (fun x => k))
  (at level 100, m at next level, right associativity) : py_scope.
Notation "m ;;; k" := (bind m (fun _ => k))
  (at level 100, right associativity) : py_scope.
Local Open Scope py_scope.

(** A [for] loop whose body may raise. *)
Definition for_each {S A} (f : A -> M S unit) : list A -> M S unit :=
  fix loop (l : list A) : M S unit :=
    match l with
    | [] => ret tt
    | x :: rest => f x ;;; loop rest
    end.

(** ** Callables *)

(** A Python callable: [accepts n] tells whether a call with [n] positional
    arguments binds to its signature, [body] is what running it on bound
    arguments produces. *)
Record callable : Type := mk_callable {
  accepts : nat -> bool;
  body : list pyval -> outcome pyval
}.

Definition arity_error (n : nat) : exn :=
  mk_exn TypeError "wrong number of arguments ({} given)" [PInt (Z.of_nat n)].

(** Calling [f] on [args]: a call that does not bind raises TypeError before
    the body runs. *)
Definition py_call (f : callable) (args : list pyval) : outcome pyval :=
  if accepts f (length args) then body f args else Raises (arity_error (length args)).

(** ** Ordered dictionaries *)

Section OrderedDict.
Context {V : Type}.

Definition od_keys (d : list (pyval * V)) : list pyval := map fst d.

Fixpoint od_get (k : pyval) (d : list (pyval * V)) : option V :=
  match d with
  | [] => None
  | (k', v) :: rest => if pyval_eqb k k' then Some v else od_get k rest
  end.

Definition od_contains (k : pyval) (d : list (pyval * V)) : bool :=
  match od_get k d with Some _ => true | None => false end.

Fixpoint od_replace (k : pyval) (v : V) (d : list (pyval * V)) : list (pyval * V) :=
  match d with
  | [] => []
  | (k', v') :: rest =>
      if pyval_eqb k k' then (k', v) :: rest else (k', v') :: od_replace k v rest
  end.

Definition unhashable (k : pyval) : exn :=
  mk_exn TypeError "unhashable type: '{}'" [PStr (type_name k)].

(** [OrderedDict.__setitem__]: a new key is appended; an existing key keeps
    its place and gets the new value. *)
Definition OrderedDict_setitem (k : pyval) (v : V) (d : list (pyval * V))
  : outcome (list (pyval * V)) :=
  if negb (hashable k) then Raises (unhashable k)
  else if od_contains k d then Returns (od_replace k v d)
  else Returns (d ++ [(k, v)]).

(** [d[k]]. *)
Definition OrderedDict_getitem (k : pyval) (d : list (pyval * V)) : outcome V :=
  if negb (hashable k) then Raises (unhashable k)
  else match od_get k d with
       | Some v => Returns v
       | None => Raises (mk_exn KeyError "{}" [k])
       end.
End OrderedDict.

(** ** The environment

    What the code reads from outside this repository: Python's [str] on values
    that are not strings or integers, the [id()] of the object each evaluation
    of [NSMenuItem.separatorItem] yields, and the file system seen by
    [open]. *)
Section Rumps.
Variable py_repr : pyval -> string.
Variable id_of_sep : nat -> N.
Variable file_opens : string -> bool.
Variable main_script_dir : option string.
Variable path_join : string -> string -> string.

(** [str(v)].  On the values that are not [None], a string or an integer,
    [py_repr] stands for what [str] returns; it is a total function, so a
    value on which [str] raises (a MenuItem that has no registered callback,
    whose [__repr__] looks the callback up) is not covered. *)
Definition py_str (v : pyval) : string :=
  match v with
  | PStr s => s
  | PNone => "None"
  | PInt z => NilEmpty.string_of_int (Z.to_int z)
  | _ => py_repr v
  end.

(** [str(i)] for an object id. *)
Definition str_of_id (i : N) : string := NilEmpty.string_of_uint (N.to_uint i).

(** ** MenuItem *)

(** The state of one MenuItem instance: the title held by its NSMenuItem, the
    callback registered for it in the class-level table
    [_ns_to_py_and_callback], its key equivalent, [_submenu] ([None], or the
    NSMenu with the items added to it so far, each named by the MenuItem that
    owns it) and the contents of the OrderedDict it is. *)
Record MenuItemObj : Type := mk_item {
  title : string;
  callback : option callable;
  key_equivalent : string;
  submenu : option (list ref);
  items : list (pyval * ref)
}.

(** The store the menu builder works on: all MenuItem instances, the
    OrderedDict [obj_c_menu] of the menu setter, and the number of separator
    objects created so far. *)
Record store : Type := mk_store {
  heap : list MenuItemObj;
  top : list (pyval * pyval);
  seps : nat
}.

Definition set_heap (h : list MenuItemObj) (st : store) : store :=
  mk_store h (top st) (seps st).
Definition set_top (d : list (pyval * pyval)) (st : store) : store :=
  mk_store (heap st) d (seps st).

(** The object [self] refers to. *)
Definition deref (self : ref) : M store MenuItemObj :=
  fun st => match heap st !! self with
            | Some o => (Returns o, st)
            | None => (Undefined, st)
            end.

(** [MenuItem.__init__(title)] with the defaults [callback=None], [icon=None]:
    a fresh instance with the title [str(title)], no callback, no submenu and
    no entries. *)
Definition MenuItem__init__ (t : pyval) : M store ref :=
  fun st =>
    (Returns (length (heap st)),
     set_heap (heap st ++ [mk_item (py_str t) None "" None []]) st).

Definition not_a_MenuItem (value : pyval) : exn :=
  mk_exn TypeError "values must be instances of MenuItem class; given {}"
         [PStr (type_name value)].

(** [MenuItem.__setitem__]. *)
Definition MenuItem__setitem__ (self : ref) (key value : pyval) : M store unit :=
  if negb (hashable key) then raise (unhashable key)
  else
    o <- deref self ;;
    if od_contains key (items o) then ret tt
    else
      match value with
      | PItem v =>
          st <- get ;;
          put (set_heap (<[self := mk_item (title o) (callback o) (key_equivalent o)
                                     (Some (default [] (submenu o) ++ [v]))
                                     (items o ++ [(key, v)])]> (heap st)) st)
      | _ => raise (not_a_MenuItem value)
      end.

(** [MenuItem.__getitem__] (inherited from dict). *)
Definition MenuItem__getitem__ (self : ref) (key : pyval) : M store pyval :=
  o <- deref self ;;
  fun st => match OrderedDict_getitem key (items o) with
            | Returns c => (Returns (PItem c), st)
            | Raises e => (Raises e, st)
            | Undefined => (Undefined, st)
            end.

(** [MenuItem.title] (getter). *)
Definition MenuItem_title (self : ref) : M store string :=
  o <- deref self ;; ret (title o).

(** [MenuItem.set_callback]. *)
Definition MenuItem_set_callback (self : ref) (f : callable) (key : string) : M store unit :=
  o <- deref self ;;
  st <- get ;;
  put (set_heap (<[self := mk_item (title o) (Some f) key (submenu o) (items o)]> (heap st)) st).

(** ** The menu setter and [parse_menu] *)

(** What the parameter [menu] of [parse_menu] is bound to: the OrderedDict
    [obj_c_menu] or a MenuItem. *)
Inductive target : Type :=
| AtTop
| AtItem (r : ref).

(** [menu[key] = value]. *)
Definition setitem (menu : target) (key value : pyval) : M store unit :=
  match menu with
  | AtTop =>
      fun st => match OrderedDict_setitem key value (top st) with
                | Returns d => (Returns tt, set_top d st)
                | Raises e => (Raises e, st)
                | Undefined => (Undefined, st)
                end
  | AtItem r => MenuItem__setitem__ r key value
  end.

(** [menu[key]]. *)
Definition getitem (menu : target) (key : pyval) : M store pyval :=
  match menu with
  | AtTop => fun st => (OrderedDict_getitem key (top st), st)
  | AtItem r => MenuItem__getitem__ r key
  end.

(** The value [menu[title]] as the [menu] argument of the recursive call. *)
Definition as_target (v : pyval) : M store target :=
  match v with
  | PItem r => ret (AtItem r)
  | _ => undefined
  end.

(** [sep = NSMenuItem.separatorItem]: the attribute is read, not called. *)
Definition separatorItem : M store pyval :=
  fun st => (Returns (PSep (id_of_sep (seps st))),
             mk_store (heap st) (top st) (S (seps st))).

Definition no_len (v : pyval) : exn :=
  mk_exn TypeError "object of type '{}' has no len()" [PStr (type_name v)].

Definition not_iterable (v : pyval) : exn :=
  mk_exn TypeError "'{}' object is not iterable" [PStr (type_name v)].

Definition bad_shape (ele : pyval) (n : nat) : exn :=
  mk_exn ValueError
         "menu iterable element {} has length {}; must be a single menu item or a pair consisting of a menu item and its submenu"
         [ele; PInt (Z.of_nat n)].

(** [menu[ele] = MenuItem(ele)]. *)
Definition add_leaf (ele : pyval) (menu : target) : M store unit :=
  m <- MenuItem__init__ ele ;; setitem menu ele (PItem m).

(** [title, submenu = ele; menu[title] = MenuItem(title);
    parse_menu(submenu, menu[title])]; [rec] is [parse_menu] itself. *)
Definition parse_pair (rec : pyval -> target -> M store unit)
    (title submenu : pyval) (menu : target) : M store unit :=
  m <- MenuItem__init__ title ;;
  setitem menu title (PItem m) ;;;
  sub <- getitem menu title ;;
  tgt <- as_target sub ;;
  rec submenu tgt.

(** The body of the loop of [parse_menu] for one element. *)
Definition parse_element (rec : pyval -> target -> M store unit)
    (ele : pyval) (menu : target) : M store unit :=
  match ele with
  | PItem r => t <- MenuItem_title r ;; setitem menu (PStr t) ele
  | PDict _ => rec ele menu
  | PNone => sep <- separatorItem ;;
             match sep with
             | PSep i => setitem menu (PStr (str_of_id i)) sep
             | _ => undefined
             end
  | PStr _ => add_leaf ele menu
  | PTuple xs | PList xs =>
      match xs with
      | [_] => add_leaf ele menu
      | [title; submenu] => parse_pair rec title submenu menu
      | _ => raise (bad_shape ele (length xs))
      end
  | PInt _ | PSep _ | PObj _ => raise (no_len ele)
  end.

(** The characters of a string, as iterating it yields them. *)
Fixpoint chars (s : string) : list pyval :=
  match s with
  | EmptyString => []
  | String c rest => PStr (String c EmptyString) :: chars rest
  end.

(** [parse_menu(iterable, menu)].  A mapping is iterated through
    [iteritems()], whose elements are 2-tuples [(key, value)]: each is
    neither a MenuItem, a Mapping, [None] nor a string, and has length 2. *)
Fixpoint parse_menu (iterable : pyval) (menu : target) {struct iterable} : M store unit :=
  match iterable with
  | PTuple xs | PList xs =>
      for_each (fun ele => parse_element parse_menu ele menu) xs
  | PDict kvs =>
      for_each (fun kv => let '(k, v) := kv in parse_pair parse_menu k v menu) kvs
  | PStr s => for_each (fun ele => add_leaf ele menu) (chars s)
  | PNone | PInt _ | PSep _ | PObj _ => raise (not_iterable iterable)
  | PItem _ => undefined
  end.

(** ** The App instance and the status bar *)

(** An NSMenuItem added to the status-bar menu: the one owned by a MenuItem,
    a separator made by calling [NSMenuItem.separatorItem], or the item
    [initWithTitle_action_keyEquivalent_('Quit', 'terminate:', '')]. *)
Inductive nsmenuitem : Type :=
| NSItemOf (r : ref)
| NSSeparator
| NSQuit.

Record NSStatusItemObj : Type := mk_statusitem {
  status_title : option string;
  status_image : option string
}.

(** The NSApp delegate: [nsstatusitem] is absent until
    [initializeStatusBar] creates it; [mainmenu] lists the items added so
    far. *)
Record NSAppObj : Type := mk_nsapp {
  nsstatusitem : option NSStatusItemObj;
  mainmenu : list nsmenuitem
}.

(** The attributes of an App instance; [_nsapp] is absent until [run]. *)
Record AppObj : Type := mk_app {
  _name : string;
  _title : pyval;
  _icon : pyval;
  _menu : option (list (pyval * pyval));
  _nsapp : option NSAppObj
}.

Definition set_title (t : pyval) (a : AppObj) : AppObj :=
  mk_app (_name a) t (_icon a) (_menu a) (_nsapp a).
Definition set_icon (i : pyval) (a : AppObj) : AppObj :=
  mk_app (_name a) (_title a) i (_menu a) (_nsapp a).
Definition set_menu (m : option (list (pyval * pyval))) (a : AppObj) : AppObj :=
  mk_app (_name a) (_title a) (_icon a) m (_nsapp a).
Definition set_nsapp (n : option NSAppObj) (a : AppObj) : AppObj :=
  mk_app (_name a) (_title a) (_icon a) (_menu a) n.

Definition no_attribute (name : string) : exn :=
  mk_exn AttributeError "object has no attribute '{}'" [PStr name].

(** [try: m except AttributeError: pass]. *)
Definition except_AttributeError_pass {S} (m : M S unit) : M S unit :=
  fun s =>
    match m s with
    | (Raises e, s') =>
        match exn_cls e with
        | AttributeError => (Returns tt, s')
        | _ => (Raises e, s')
        end
    | r => r
    end.

(** [_nsimage_from_file(filename)]: the file is opened first so that a
    missing file raises; a name that does not open is retried relative to the
    directory of the main script.  The result is the file the NSImage
    references. *)
Definition _nsimage_from_file (filename : pyval) : outcome string :=
  match filename with
  | PStr f =>
      if file_opens f then Returns f
      else
        let f' := match main_script_dir with
                  | Some d => path_join d f
                  | None => f
                  end in
        if file_opens f' then Returns f'
        else Raises (mk_exn IOError "No such file or directory: '{}'" [PStr f'])
  | _ => Raises (mk_exn TypeError "coercing to Unicode: need string or buffer, {} found"
                        [PStr (type_name filename)])
  end.

(** The status item of [self._nsapp], as [self._nsapp.nsstatusitem] reads
    it. *)
Definition the_statusitem : M AppObj (NSAppObj * NSStatusItemObj) :=
  fun a =>
    match _nsapp a with
    | None => (Raises (no_attribute "_nsapp"), a)
    | Some ns =>
        match nsstatusitem ns with
        | None => (Raises (no_attribute "nsstatusitem"), a)
        | Some si => (Returns (ns, si), a)
        end
    end.

(** [NSApp.setStatusBarTitle]. *)
Definition setStatusBarTitle : M AppObj unit :=
  p <- the_statusitem ;;
  a <- get ;;
  let t := match _title a with PNone => _name a | t => py_str t end in
  put (set_nsapp (Some (mk_nsapp (Some (mk_statusitem (Some t) (status_image (snd p))))
                                 (mainmenu (fst p)))) a).

(** [NSApp.setStatusBarIcon]. *)
Definition setStatusBarIcon : M AppObj unit :=
  p <- the_statusitem ;;
  a <- get ;;
  match _nsimage_from_file (_icon a) with
  | Returns img =>
      put (set_nsapp (Some (mk_nsapp (Some (mk_statusitem (status_title (snd p)) (Some img)))
                                     (mainmenu (fst p)))) a)
  | Raises e => raise e
  | Undefined => undefined
  end.

(** [App.title] (setter). *)
Definition App_title_setter (t : pyval) : M AppObj unit :=
  match t with
  | PNone => ret tt
  | _ =>
      a <- get ;;
      put (set_title (PStr (py_str t)) a) ;;;
      except_AttributeError_pass setStatusBarTitle
  end.

(** [App.icon] (setter). *)
Definition App_icon_setter (icon_path : pyval) : M AppObj unit :=
  match icon_path with
  | PNone => ret tt
  | _ =>
      a <- get ;;
      put (set_icon icon_path a) ;;;
      except_AttributeError_pass setStatusBarIcon
  end.

(** [App.menu] (setter): [obj_c_menu] is the [top] of the store. *)
Definition App_menu_setter (python_menu : pyval) (self : AppObj) : M store AppObj :=
  st <- get ;;
  put (set_top [] st) ;;;
  match python_menu with
  | PNone => ret (set_menu None self)
  | _ =>
      parse_menu python_menu AtTop ;;;
      st' <- get ;;
      ret (set_menu (Some (top st')) self)
  end.

(** [item()] for a value of the top-level menu: a MenuItem gives its
    NSMenuItem, the separator attribute gives a separator when called. *)
Definition call_item (v : pyval) : outcome nsmenuitem :=
  match v with
  | PItem r => Returns (NSItemOf r)
  | PSep _ => Returns NSSeparator
  | PObj _ => Undefined
  | _ => Raises (mk_exn TypeError "'{}' object is not callable" [PStr (type_name v)])
  end.

(** [self.mainmenu.addItem_(item)]. *)
Definition addItem_ (it : nsmenuitem) : M AppObj unit :=
  fun a =>
    match _nsapp a with
    | None => (Raises (no_attribute "_nsapp"), a)
    | Some ns =>
        (Returns tt, set_nsapp (Some (mk_nsapp (nsstatusitem ns) (mainmenu ns ++ [it]))) a)
    end.

(** [NSApp.initializeStatusBar], run on the App whose [__dict__] the
    delegate shares. *)
Definition initializeStatusBar : M AppObj unit :=
  a <- get ;;
  put (set_nsapp (Some (mk_nsapp (Some (mk_statusitem None None)) [])) a) ;;;
  match _icon a with
  | PNone => setStatusBarTitle
  | _ =>
      setStatusBarIcon ;;;
      match _title a with
      | PNone => ret tt
      | _ => setStatusBarTitle
      end
  end ;;;
  match _menu a with
  | Some d =>
      for_each (fun item =>
                  match call_item item with
                  | Returns it => addItem_ it
                  | Raises e => raise e
                  | Undefined => undefined
                  end) (map snd d)
  | None => ret tt
  end ;;;
  addItem_ NSQuit.

(** The first steps of [App.run]: the delegate is created and the status
    bar initialised. *)
Definition run_initialize : M AppObj unit :=
  a <- get ;;
  put (set_nsapp (Some (mk_nsapp None [])) a) ;;;
  initializeStatusBar.

(** ** Click registrations *)

(** The closure [register_click] made by [clicked(args...)(f)]: it captures
    the decorator's arguments and the decorated function. *)
Record registration : Type := mk_registration {
  click_args : list pyval;
  click_f : callable
}.

(** [clicked(args...)(f)] at decoration time: the closure is appended to
    [clicked.__dict__['*buttons']]; nothing else is read or written. *)
Definition clicked (args : list pyval) (f : callable) (buttons : list registration)
  : list registration :=
  buttons ++ [mk_registration args f].

(** What the variable [menuitem] of [register_click] is bound to: the
    OrderedDict [self._menu] or a value found in the tree. *)
Inductive cursor : Type :=
| AtMenu (d : list (pyval * pyval))
| AtValue (v : pyval).

Definition not_subscriptable (v : pyval) : exn :=
  mk_exn TypeError "'{}' object has no attribute '__getitem__'" [PStr (type_name v)].

(** [menuitem[arg]]. *)
Definition subscript (menuitem : cursor) (arg : pyval) : M store cursor :=
  match menuitem with
  | AtMenu d =>
      fun st => match OrderedDict_getitem arg d with
                | Returns v => (Returns (AtValue v), st)
                | Raises e => (Raises e, st)
                | Undefined => (Undefined, st)
                end
  | AtValue (PItem r) => v <- MenuItem__getitem__ r arg ;; ret (AtValue v)
  | AtValue (PDict kvs) =>
      fun st => match OrderedDict_getitem arg kvs with
                | Returns v => (Returns (AtValue v), st)
                | Raises e => (Raises e, st)
                | Undefined => (Undefined, st)
                end
  | AtValue (PNone as v) | AtValue (PSep _ as v) | AtValue (PInt _ as v) =>
      raise (not_subscriptable v)
  | AtValue _ => undefined
  end.

(** [for arg in args: menuitem = menuitem[arg]]. *)
Fixpoint follow (menuitem : cursor) (args : list pyval) : M store cursor :=
  match args with
  | [] => ret menuitem
  | arg :: rest => next <- subscript menuitem arg ;; follow next rest
  end.

(** [' -> '.join(args)]: every item must be a string. *)
Fixpoint strings_of (args : list pyval) : option (list string) :=
  match args with
  | [] => Some []
  | PStr s :: rest => option_map (cons s) (strings_of rest)
  | _ :: _ => None
  end.

Definition join_arrow (args : list pyval) : outcome string :=
  match strings_of args with
  | Some l => Returns (String.concat " -> " l)
  | None => Raises (mk_exn TypeError "sequence item {}: expected string, {} found" [])
  end.

Definition no_menu_created : exn := mk_exn ValueError "no menu created" [].

Definition no_path_exists (joined : string) : exn :=
  mk_exn ValueError "no path exists for {}" [PStr joined].

(** [try: ... except KeyError: raise ValueError('no path exists for
    {}'.format(' -> '.join(args)))]. *)
Definition except_KeyError_no_path {A} (args : list pyval) (m : M store A) : M store A :=
  fun st =>
    match m st with
    | (Raises e, st') =>
        match exn_cls e with
        | KeyError =>
            match join_arrow args with
            | Returns j => (Raises (no_path_exists j), st')
            | Raises e' => (Raises e', st')
            | Undefined => (Undefined, st')
            end
        | _ => (Raises e, st')
        end
    | r => r
    end.

(** [menuitem.set_callback(f)]: only a MenuItem has the method. *)
Definition cursor_set_callback (menuitem : cursor) (f : callable) : M store unit :=
  match menuitem with
  | AtValue (PItem r) => MenuItem_set_callback r f ""
  | AtValue (PObj _) => undefined
  | _ => raise (no_attribute "set_callback")
  end.

(** [register_click(self)]. *)
Definition register_click (b : registration) (self : AppObj) : M store unit :=
  match _menu self with
  | None => raise no_menu_created
  | Some d =>
      menuitem <- except_KeyError_no_path (click_args b) (follow (AtMenu d) (click_args b)) ;;
      cursor_set_callback menuitem (click_f b)
  end.

(** The last loop of [App.run]: [for b in buttons: b(self)]. *)
Definition run_bind_clicks (self : AppObj) (buttons : list registration) : M store unit :=
  for_each (fun b => register_click b self) buttons.

(** ** The dispatcher *)

Definition no_app_instance : exn :=
  mk_exn AttributeError "type object 'App' has no attribute '{}'" [PStr "*app_instance"].

(** [_call_as_function_or_method(f, event)]; [app_instance] is the class
    attribute [App.'*app_instance'], absent before [run].  The result pairs
    the argument lists [f] was called with, in order, with the outcome. *)
Definition _call_as_function_or_method (app_instance : option pyval)
    (f : callable) (event : pyval) : list (list pyval) * outcome pyval :=
  match py_call f [event] with
  | Raises e =>
      if is_TypeError e then
        match app_instance with
        | Some self => ([[event]; [self; event]], py_call f [self; event])
        | None => ([[event]], Raises no_app_instance)
        end
      else ([[event]], Raises e)
  | r => ([[event]], r)
  end.

(** ** Timer *)

(** The value of an instance attribute of a Timer. *)
Inductive attr : Type :=
| ACallback (f : callable)
| ANSDate
| ANSTimer
| AMethod (name : string).

(** A Timer instance: its [__dict__], and the NSTimer it owns (whether the
    timer is still valid, and how often [fire] was sent to it while valid).
    What the NSTimer does with a [fire], sending [callback:] back to the
    Timer, is not run by these definitions. *)
Record TimerObj : Type := mk_timer {
  t_dict : list (string * attr);
  interval : Q;
  nstimer_valid : bool;
  nstimer_fired : nat
}.

(** The attributes defined by [class Timer(object)]. *)
Definition Timer_class : list string :=
  ["__init__"; "__call__"; "__repr__"; "start"; "stop"; "set_callback"; "callback_"].

Fixpoint dict_get (name : string) (d : list (string * attr)) : option attr :=
  match d with
  | [] => None
  | (n, v) :: rest => if String.eqb name n then Some v else dict_get name rest
  end.

Fixpoint dict_del (name : string) (d : list (string * attr)) : list (string * attr) :=
  match d with
  | [] => []
  | (n, v) :: rest => if String.eqb name n then rest else (n, v) :: dict_del name rest
  end.

Definition dict_set (name : string) (v : attr) (d : list (string * attr))
  : list (string * attr) :=
  match dict_get name d with
  | Some _ => map (fun nv => if String.eqb name (fst nv) then (fst nv, v) else nv) d
  | None => d ++ [(name, v)]
  end.

Definition set_dict (d : list (string * attr)) (t : TimerObj) : TimerObj :=
  mk_timer d (interval t) (nstimer_valid t) (nstimer_fired t).

(** [getattr(self, name)]: the instance [__dict__], then the class. *)
Definition Timer_getattr (name : string) : M TimerObj attr :=
  fun t =>
    match dict_get name (t_dict t) with
    | Some v => (Returns v, t)
    | None =>
        if existsb (String.eqb name) Timer_class then (Returns (AMethod name), t)
        else (Raises (no_attribute name), t)
    end.

(** [setattr(self, name, v)]. *)
Definition Timer_setattr (name : string) (v : attr) : M TimerObj unit :=
  fun t => (Returns tt, set_dict (dict_set name v (t_dict t)) t).

(** [delattr(self, name)]: only the instance [__dict__] is looked at; a name
    that is not in it raises AttributeError, also when the class defines
    it. *)
Definition Timer_delattr (name : string) : M TimerObj unit :=
  fun t =>
    match dict_get name (t_dict t) with
    | Some _ => (Returns tt, set_dict (dict_del name (t_dict t)) t)
    | None => (Raises (no_attribute name), t)
    end.

(** [Timer.set_callback]. *)
Definition Timer_set_callback (callback : callable) : M TimerObj unit :=
  Timer_setattr "*callback" (ACallback callback).

(** [Timer.__init__(callback, interval)]: the callback is stored, then the
    date and the NSTimer, which is created valid and added to the run
    loop. *)
Definition Timer__init__ (callback : callable) (interval : Q) : TimerObj :=
  snd ((Timer_set_callback callback ;;;
        Timer_setattr "_nsdate" ANSDate ;;;
        Timer_setattr "_nstimer" ANSTimer)
         (mk_timer [] interval true 0)).

(** [self._nstimer.fire()] and [self._nstimer.invalidate()]. *)
Definition nstimer_send (fire : bool) : M TimerObj unit :=
  t <- Timer_getattr "_nstimer" ;;
  match t with
  | ANSTimer =>
      fun o =>
        if fire then
          (Returns tt, mk_timer (t_dict o) (interval o) (nstimer_valid o)
                                (if nstimer_valid o then S (nstimer_fired o) else nstimer_fired o))
        else (Returns tt, mk_timer (t_dict o) (interval o) false (nstimer_fired o))
  | _ => raise (no_attribute (if fire then "fire" else "invalidate"))
  end.

(** [Timer.start]. *)
Definition Timer_start : M TimerObj unit := nstimer_send true.

(** [Timer.stop]. *)
Definition Timer_stop : M TimerObj unit :=
  nstimer_send false ;;; Timer_delattr "start".

(** [t.start()] as a caller writes it: the attribute is looked up, then
    called. *)
Definition call_start : M TimerObj unit :=
  m <- Timer_getattr "start" ;;
  match m with
  | AMethod _ => Timer_start
  | _ => undefined
  end.


(** ** Declaration order

    What a declaration says about one level of the menu, read off the
    declaration alone: the keys it inserts at that level, in the order it
    names them, and the number of separators it asks for. *)

Definition sum_with {A} (f : A -> nat) : list A -> nat :=
  fix go (l : list A) : nat :=
    match l with
    | [] => 0
    | x :: rest => f x + go rest
    end.

(** The number of [None] elements met when [iterable] is parsed
    ([separators_in]) and when [ele] is handled as one element
    ([separators_of]). *)
Fixpoint separators_in (iterable : pyval) : nat :=
  match iterable with
  | PTuple xs | PList xs => sum_with separators_of xs
  | PDict kvs => sum_with (fun kv => match kv with (_, v) => separators_in v end) kvs
  | _ => 0
  end
with separators_of (ele : pyval) : nat :=
  match ele with
  | PNone => 1
  | PDict kvs => sum_with (fun kv => match kv with (_, v) => separators_in v end) kvs
  | PTuple xs | PList xs =>
      match xs with
      | [_; submenu] => separators_in submenu
      | _ => 0
      end
  | _ => 0
  end.

(** The title of the MenuItem [r] in the store [h]. *)
Definition title_in (h : list MenuItemObj) (r : ref) : string :=
  match h !! r with
  | Some o => title o
  | None => ""
  end.

(** The keys one element declares at the level it appears in, when [n]
    separators were made before it: a MenuItem gives its title, a nested
    mapping gives its keys, [None] the key of the next separator, a string
    itself, a sequence of length 1 itself, a sequence of length 2 its first
    component. *)
Definition element_keys (h : list MenuItemObj) (n : nat) (ele : pyval) : list pyval :=
  match ele with
  | PItem r => [PStr (title_in h r)]
  | PDict kvs => map fst kvs
  | PNone => [PStr (str_of_id (id_of_sep n))]
  | PStr _ => [ele]
  | PTuple xs | PList xs =>
      match xs with
      | [_] => [ele]
      | [t; _] => [t]
      | _ => []
      end
  | _ => []
  end.

Fixpoint sequence_keys (h : list MenuItemObj) (n : nat) (xs : list pyval) : list pyval :=
  match xs with
  | [] => []
  | ele :: rest => element_keys h n ele ++ sequence_keys h (n + separators_of ele) rest
  end.

(** The keys a whole declaration declares at its own level. *)
Definition declared_keys (h : list MenuItemObj) (n : nat) (iterable : pyval) : list pyval :=
  match iterable with
  | PTuple xs | PList xs => sequence_keys h n xs
  | PDict kvs => map fst kvs
  | PStr s => chars s
  | _ => []
  end.

(** First-occurrence order: a key is recorded the first time it is seen and
    skipped afterwards. *)
Definition key_in (k : pyval) (seen : list pyval) : bool := existsb (pyval_eqb k) seen.

Definition record_key (seen : list pyval) (k : pyval) : list pyval :=
  if key_in k seen then seen else seen ++ [k].

Definition record_keys (seen new : list pyval) : list pyval := fold_left record_key new seen.

Definition first_occurrences (l : list pyval) : list pyval := record_keys [] l.

(** The store [h'] still has every MenuItem of [h], under the same title. *)
Definition heap_ext (h h' : list MenuItemObj) : Prop :=
  forall r o, h !! r = Some o -> exists o', h' !! r = Some o' /\ title o' = title o.

(** What a run from [st] to [st'] leaves behind when it makes [n] separators
    and inserts at the level [menu] the keys [ks]: no MenuItem is lost or
    retitled; if the level is the top-level OrderedDict its keys are extended
    in first-occurrence order, and if it is a MenuItem the top-level
    OrderedDict is not touched.  The keys may mention titles of MenuItems, so
    [ks] reads them in any store [h] that extends the final one. *)
Definition level_effect (menu : target) (st st' : store) (n : nat)
    (ks : list MenuItemObj -> list pyval) : Prop :=
  seps st' = seps st + n /\
  heap_ext (heap st) (heap st') /\
  match menu with
  | AtTop =>
      forall h, heap_ext (heap st') h ->
                od_keys (top st') = record_keys (od_keys (top st)) (ks h)
  | AtItem _ => top st' = top st
  end.

(** What is shown of [parse_menu] on a declaration, and of the loop body on
    an element: a run that returns has the effect the declaration states. *)
Definition parse_menu_ok (iterable : pyval) : Prop :=
  forall menu st st',
    parse_menu iterable menu st = (Returns tt, st') ->
    level_effect menu st st' (separators_in iterable)
                 (fun h => declared_keys h (seps st) iterable).

Definition parse_element_ok (ele : pyval) : Prop :=
  forall menu st st',
    parse_element parse_menu ele menu st = (Returns tt, st') ->
    level_effect menu st st' (separators_of ele)
                 (fun h => element_keys h (seps st) ele).

(** The keys of the mapping [menuitem] is bound to, if it is one. *)
Definition mapping_keys (menuitem : cursor) (st : store) : option (list pyval) :=
  match menuitem with
  | AtMenu d => Some (od_keys d)
  | AtValue (PItem r) => option_map (fun o => od_keys (items o)) (heap st !! r)
  | AtValue (PDict kvs) => Some (od_keys kvs)
  | AtValue _ => None
  end.

(** The values of the top-level menu of an App, in order. *)
Definition menu_values (a : AppObj) : list pyval :=
  match _menu a with
  | Some d => map snd d
  | None => []
  end.

(** The values [parse_menu] stores in the top-level OrderedDict. *)
Definition is_item_or_separator (v : pyval) : bool :=
  match v with
  | PItem _ | PSep _ => true
  | _ => false
  end.

Definition top_values_ok (st : store) : Prop :=
  Forall (fun v => is_item_or_separator v = true) (map snd (top st)).

(** A computation that, however it ends, leaves a top-level OrderedDict of
    such values as one. *)
Definition keeps_top_values {A} (m : M store A) : Prop :=
  forall st x st', top_values_ok st -> m st = (x, st') -> top_values_ok st'.

(** A declaration that holds no pre-built MenuItem. *)
Fixpoint no_prebuilt (v : pyval) : bool :=
  match v with
  | PItem _ => false
  | PTuple xs | PList xs => forallb no_prebuilt xs
  | PDict kvs =>
      forallb (fun kv => match kv with (k, x) => no_prebuilt k && no_prebuilt x end) kvs
  | _ => true
  end.

(** A store in which every child was created after its parent, as in every
    store built by [parse_menu] alone: no MenuItem is below itself. *)
Definition ordered (h : list MenuItemObj) : Prop :=
  forall r o k c, h !! r = Some o -> In (k, c) (items o) -> r < c < length h.

Definition valid_target (menu : target) (st : store) : Prop :=
  match menu with
  | AtTop => True
  | AtItem r => r < length (heap st)
  end.

(** What a run from [st] to [st'] that inserts the keys [ks] at the level
    [menu] does to the MenuItems: the store stays ordered and loses nothing;
    if the level is the MenuItem [r], no earlier MenuItem changes and the
    keys of [r] are extended in first-occurrence order. *)
Definition built_effect (menu : target) (st st' : store) (ks : list pyval) : Prop :=
  ordered (heap st') /\
  length (heap st) <= length (heap st') /\
  match menu with
  | AtTop => True
  | AtItem r =>
      (forall r', r' < r -> heap st' !! r' = heap st !! r') /\
      exists o o',
        heap st !! r = Some o /\ heap st' !! r = Some o' /\
        od_keys (items o') = record_keys (od_keys (items o)) ks
  end.

Definition parse_menu_built (iterable : pyval) : Prop :=
  no_prebuilt iterable = true ->
  forall h menu st st',
    ordered (heap st) -> valid_target menu st ->
    parse_menu iterable menu st = (Returns tt, st') ->
    built_effect menu st st' (declared_keys h (seps st) iterable).

Definition parse_element_built (ele : pyval) : Prop :=
  no_prebuilt ele = true ->
  forall h menu st st',
    ordered (heap st) -> valid_target menu st ->
    parse_element parse_menu ele menu st = (Returns tt, st') ->
    built_effect menu st st' (element_keys h (seps st) ele).

(** ** Values for concrete runs *)

(** An environment to run the definitions in: every object prints the same
    way, the separator objects get consecutive ids from 4391 on, no file
    opens, and paths are joined with a slash. *)
Definition example_repr (v : pyval) : string := "<object>".
Definition example_ids (k : nat) : N := (4391 + N.of_nat k)%N.
Definition no_file (f : string) : bool := false.
Definition slash_join (d f : string) : string := String.append d (String.append "/" f).

Definition empty_store : store := mk_store [] [] 0.
Definition new_app : AppObj := mk_app "demo" PNone PNone None None.

(** The store after [menu = [('Preferences', ['General', 'Advanced'])]]. *)
Definition preferences_store : store :=
  mk_store [mk_item "Preferences" None "" (Some [1; 2])
                    [(PStr "General", 1); (PStr "Advanced", 2)];
            mk_item "General" None "" None [];
            mk_item "Advanced" None "" None []]
           [(PStr "Preferences", PItem 0)] 0.

(** A callback of one parameter whose body raises a TypeError of its own. *)
Definition failing_callback : callable :=
  mk_callable (Nat.eqb 1)
              (fun _ => Raises (mk_exn TypeError "unsupported operand type(s) for +: '{}' and '{}'"
                                       [PStr "int"; PStr "str"])).

(** More values for concrete runs: a file system in which only
    [/app/icon.png] opens, a callback of one parameter that returns [None],
    and an App whose status item exists and shows its name. *)
Definition only_app_icon (f : string) : bool := String.eqb f "/app/icon.png".

Definition quiet_callback : callable :=
  mk_callable (Nat.eqb 1) (fun _ => Returns PNone).

Definition running_app : AppObj :=
  mk_app "demo" PNone PNone None
         (Some (mk_nsapp (Some (mk_statusitem (Some "demo") None)) [NSQuit])).

(** ** What the embedding covers *)

(** No MenuItem stands where [parse_menu] is given a declaration to iterate:
    [iterable] itself, the second component of a pair and the values of a
    mapping are not MenuItems, at any depth.  (A MenuItem that is an element
    of a sequence is a pre-built node, which the parser inserts as it is.) *)
Fixpoint iterates_no_MenuItem (iterable : pyval) : bool :=
  match iterable with
  | PItem _ => false
  | PTuple xs | PList xs => forallb element_iterates_no_MenuItem xs
  | PDict kvs =>
      forallb (fun kv => match kv with (_, v) => iterates_no_MenuItem v end) kvs
  | _ => true
  end
with element_iterates_no_MenuItem (ele : pyval) : bool :=
  match ele with
  | PDict kvs =>
      forallb (fun kv => match kv with (_, v) => iterates_no_MenuItem v end) kvs
  | PTuple xs | PList xs =>
      match xs with
      | [_; submenu] => iterates_no_MenuItem submenu
      | _ => true
      end
  | _ => true
  end.

(** The values whose [str] is computed here without [py_repr]: strings and
    integers. *)
Definition is_text (v : pyval) : bool :=
  match v with
  | PStr _ | PInt _ => true
  | _ => false
  end.

(** ** Invariants of the store *)

(** The NSMenu of a MenuItem exists once the MenuItem has an entry, and then
    holds the items of its entries in the order of the entries. *)
Definition submenu_mirrors (o : MenuItemObj) : Prop :=
  submenu o = match items o with
              | [] => None
              | _ :: _ => Some (map snd (items o))
              end.

Definition submenus_mirror (st : store) : Prop :=
  forall r o, heap st !! r = Some o -> submenu_mirrors o.

(** [h'] has every MenuItem of [h], with the same title, callback and key
    equivalent, and with the entries of [h] as its first entries. *)
Definition grown (h h' : list MenuItemObj) : Prop :=
  forall r o,
    h !! r = Some o ->
    exists o' more,
      h' !! r = Some o' /\
      title o' = title o /\
      callback o' = callback o /\
      key_equivalent o' = key_equivalent o /\
      items o' = items o ++ more.

(** Every run of [m], however it ends, takes a store to one related to it
    by [R]. *)
Definition steps {A} (R : store -> store -> Prop) (m : M store A) : Prop :=
  forall st x st', m st = (x, st') -> R st st'.

(** ** Clicks and titles *)

Definition not_registered (nsmenuitem : ref) : exn :=
  mk_exn KeyError "{}" [PItem nsmenuitem].

(** [MenuItem.callback_(nsmenuitem)], the action a bound NSMenuItem sends to
    the class; the NSMenuItem is named by the MenuItem that owns it.  The
    pair [(self, callback)] is looked up in [_ns_to_py_and_callback]
    (KeyError when nothing was registered for the item) and the callback is
    dispatched with the MenuItem as the event.  The result is the one of the
    dispatcher: the calls made and their outcome. *)
Definition MenuItem_callback_ (app_instance : option pyval) (nsmenuitem : ref) (st : store)
  : list (list pyval) * outcome pyval :=
  match heap st !! nsmenuitem with
  | Some o =>
      match callback o with
      | Some f => _call_as_function_or_method app_instance f (PItem nsmenuitem)
      | None => ([], Raises (not_registered nsmenuitem))
      end
  | None => ([], Undefined)
  end.

(** [MenuItem.title] (setter). *)
Definition MenuItem_title_setter (self : ref) (new_title : pyval) : M store unit :=
  o <- deref self ;;
  st <- get ;;
  put (set_heap (<[self := mk_item (py_str new_title) (callback o) (key_equivalent o)
                                   (submenu o) (items o)]> (heap st)) st).

(** Two stores hold the same entries under every MenuItem. *)
Definition same_entries (st st' : store) : Prop :=
  forall r, option_map items (heap st !! r) = option_map items (heap st' !! r).

(** The path of the registration [b] leads from the menu [d] to the
    MenuItem [r]. *)
Definition resolves_to (d : list (pyval * pyval)) (st : store) (b : registration) (r : ref)
  : bool :=
  match fst (follow (AtMenu d) (click_args b) st) with
  | Returns (AtValue (PItem r')) => Nat.eqb r' r
  | _ => false
  end.

(** The function of the last registration whose path leads to [r]. *)
Fixpoint last_bound (d : list (pyval * pyval)) (st : store) (buttons : list registration)
    (r : ref) : option callable :=
  match buttons with
  | [] => None
  | b :: rest =>
      match last_bound d st rest r with
      | Some f => Some f
      | None => if resolves_to d st b r then Some (click_f b) else None
      end
  end.

(** The MenuItem [o] once [f] is its callback, as [set_callback(f)] leaves
    it. *)
Definition bound_to (f : callable) (o : MenuItemObj) : MenuItemObj :=
  mk_item (title o) (Some f) "" (submenu o) (items o).

(** [Timer.callback_(_)], the selector the NSTimer sends to the Timer: the
    callback is looked up under ['*callback'] and dispatched with the Timer
    itself, the Python object [self], as the event. *)
Definition Timer_callback_ (app_instance : option pyval) (self : pyval) (t : TimerObj)
  : list (list pyval) * outcome pyval :=
  match fst (Timer_getattr "*callback" t) with
  | Returns (ACallback f) => _call_as_function_or_method app_instance f self
  | Returns _ => ([], Undefined)
  | Raises e => ([], Raises e)
  | Undefined => ([], Undefined)
  end.

(** The status item of the delegate, when there is one. *)
Definition status_of (a : AppObj) : option NSStatusItemObj :=
  match _nsapp a with
  | Some ns => nsstatusitem ns
  | None => None
  end.

(** ** Window and Response *)

(** A Window instance: the attributes [_default_text], [_cancel] and
    [_icon], the NSAlert it owns (its message text, informative text, icon,
    the default and alternate buttons it was made with and the titles added
    with [addButtonWithTitle_]) and its NSTextField (frame size and string
    value). *)
Record WindowObj : Type := mk_window {
  _default_text : string;
  _cancel : bool;
  window_icon : pyval;
  messageText : string;
  informativeText : string;
  alert_icon : option string;
  defaultButton : option string;
  alternateButton : option string;
  addedButtons : list string;
  frame : Z * Z;
  stringValue : string
}.

(** [Window.__init__], for a [default_text] that is a string, an [ok] that
    is a string or [None], a [cancel] that is a boolean and [dimensions] that
    are a pair: a new text field is empty, and gets the default text only
    when that is not empty. *)
Definition Window__init__ (message title : pyval) (default_text : string)
    (ok : option string) (cancel : bool) (dimensions : Z * Z) : WindowObj :=
  mk_window default_text cancel PNone (py_str title) (py_str message) None
            ok (if cancel then Some "Cancel" else None) [] dimensions
            (if String.eqb default_text "" then "" else default_text).

(** [Window.title] and [Window.message] (setters). *)
Definition Window_title_setter (new_title : pyval) : M WindowObj unit :=
  fun w => (Returns tt,
            mk_window (_default_text w) (_cancel w) (window_icon w) (py_str new_title)
                      (informativeText w) (alert_icon w) (defaultButton w)
                      (alternateButton w) (addedButtons w) (frame w) (stringValue w)).

Definition Window_message_setter (new_message : pyval) : M WindowObj unit :=
  fun w => (Returns tt,
            mk_window (_default_text w) (_cancel w) (window_icon w) (messageText w)
                      (py_str new_message) (alert_icon w) (defaultButton w)
                      (alternateButton w) (addedButtons w) (frame w) (stringValue w)).

(** [Window.default_text] (setter). *)
Definition Window_default_text_setter (new_text : pyval) : M WindowObj unit :=
  fun w => (Returns tt,
            mk_window (py_str new_text) (_cancel w) (window_icon w) (messageText w)
                      (informativeText w) (alert_icon w) (defaultButton w)
                      (alternateButton w) (addedButtons w) (frame w) (py_str new_text)).

(** [Window.icon] (setter): the image is made first. *)
Definition Window_icon_setter (icon_path : pyval) : M WindowObj unit :=
  fun w =>
    match _nsimage_from_file icon_path with
    | Returns new_icon =>
        (Returns tt,
         mk_window (_default_text w) (_cancel w) icon_path (messageText w)
                   (informativeText w) (Some new_icon) (defaultButton w)
                   (alternateButton w) (addedButtons w) (frame w) (stringValue w))
    | Raises e => (Raises e, w)
    | Undefined => (Undefined, w)
    end.

(** [Window.add_button]. *)
Definition Window_add_button (name : pyval) : M WindowObj unit :=
  fun w => (Returns tt,
            mk_window (_default_text w) (_cancel w) (window_icon w) (messageText w)
                      (informativeText w) (alert_icon w) (defaultButton w)
                      (alternateButton w) (addedButtons w ++ [py_str name]) (frame w)
                      (stringValue w)).

(** What [for ele in iterable] yields; a dictionary yields its keys. *)
Definition iterate (iterable : pyval) : outcome (list pyval) :=
  match iterable with
  | PTuple xs | PList xs => Returns xs
  | PDict kvs => Returns (map fst kvs)
  | PStr s => Returns (chars s)
  | PNone | PInt _ | PSep _ | PObj _ => Raises (not_iterable iterable)
  | PItem _ => Undefined
  end.

(** [Window.add_buttons(iterable, *args)]. *)
Definition Window_add_buttons (iterable : pyval) (args : list pyval) : M WindowObj unit :=
  match iterable with
  | PNone => ret tt
  | _ =>
      match iterable with
      | PStr _ => Window_add_button iterable
      | _ =>
          match iterate iterable with
          | Returns eles => for_each Window_add_button eles
          | Raises e => raise e
          | Undefined => undefined
          end
      end ;;;
      for_each Window_add_button args
  end.

(** A Response instance. *)
Record ResponseObj : Type := mk_response {
  _clicked : Z;
  _text : string
}.

(** [Window.run]: [runModal] is the code the modal session of the alert
    ends with, and [edited] the string value of the text field at that
    moment. *)
Definition Window_run (runModal : Z) (edited : string) : M WindowObj ResponseObj :=
  fun w =>
    let clicked := (runModal mod 999)%Z in
    let clicked := if (2 <? clicked)%Z && _cancel w then (clicked - 1)%Z else clicked in
    let text := edited in
    (Window_default_text_setter (PStr (_default_text w)) ;;;
     ret (mk_response clicked text))
      (mk_window (_default_text w) (_cancel w) (window_icon w) (messageText w)
                 (informativeText w) (alert_icon w) (defaultButton w)
                 (alternateButton w) (addedButtons w) (frame w) edited).

(** The local [shortened_text] of [Response.__repr__]. *)
Definition shortened_text (text : string) : string :=
  if Nat.ltb (String.length text) 21 then text else String.substring 0 17 text ++ "...".

(** [Response.__repr__]. *)
Definition Response__repr__ (self : ResponseObj) : string :=
  "<Response: [clicked: " ++ py_str (PInt (_clicked self)) ++ ", text: "
    ++ py_repr (PStr (shortened_text (_text self))) ++ "]>".

(** ** Notifications *)

Record NSUserNotificationObj : Type := mk_notification {
  n_title : string;
  n_subtitle : string;
  n_informativeText : string;
  n_userInfo : list (pyval * pyval);
  n_soundName : option string
}.

(** The messages the code sends to the default NSUserNotificationCenter. *)
Inductive center_message : Type :=
| scheduleNotification_ (n : NSUserNotificationObj)
| removeDeliveredNotification_ (n : NSUserNotificationObj).

Definition data_not_a_mapping : exn :=
  mk_exn TypeError "notification data must be a mapping" [].

(** [notification(title, subtitle, message, data, sound)], for strings and a
    boolean [sound]; the store is the list of messages sent to the
    notification center so far. *)
Definition notification (title subtitle message : string) (data : pyval) (sound : bool)
  : M (list center_message) unit :=
  let schedule (userInfo : list (pyval * pyval)) : M (list center_message) unit :=
    fun sent =>
      (Returns tt,
       sent ++ [scheduleNotification_
                  (mk_notification title subtitle message userInfo
                     (if sound then Some "NSUserNotificationDefaultSoundName" else None))])
  in
  match data with
  | PNone => schedule []
  | PDict kvs => schedule kvs
  | PItem _ => undefined
  | _ => raise data_not_a_mapping
  end.

(** [notifications(f)]: the decorator stores [f] as [notifications.
    '*notification_center'], in place of what was there. *)
Definition notifications (f : callable) (notification_center : option callable)
  : option callable := Some f.

(** [NSApp.userNotificationCenter_didActivateNotification_]:
    [notification_center] is the function stored by the decorator, if any.
    The result lists the calls made to it and gives the outcome. *)
Definition didActivateNotification_ (notification_center : option callable)
    (app_instance : option pyval) (n : NSUserNotificationObj) (sent : list center_message)
  : (list (list pyval) * outcome unit) * list center_message :=
  let data := PDict (n_userInfo n) in
  let attempt : list (list pyval) * outcome pyval :=
    match notification_center with
    | Some f => _call_as_function_or_method app_instance f data
    | None => ([], Raises (mk_exn AttributeError "'function' object has no attribute '{}'"
                                  [PStr "*notification_center"]))
    end in
  ((fst attempt,
    match snd attempt with
    | Returns _ => Returns tt
    | Raises e =>
        match exn_cls e with
        | AttributeError => Returns tt
        | _ => Raises e
        end
    | Undefined => Undefined
    end),
   sent ++ [removeDeliveredNotification_ n]).

(** A call of a method of Window, and the window it leaves, whatever its
    outcome. *)
Inductive Window_call : Type :=
| set_Window_title (new_title : pyval)
| set_Window_message (new_message : pyval)
| set_Window_default_text (new_text : pyval)
| set_Window_icon (icon_path : pyval)
| call_add_button (name : pyval)
| call_add_buttons (iterable : pyval) (args : list pyval)
| call_run (runModal : Z) (edited : string).

Definition Window_after (w : WindowObj) (c : Window_call) : WindowObj :=
  match c with
  | set_Window_title v => snd (Window_title_setter v w)
  | set_Window_message v => snd (Window_message_setter v w)
  | set_Window_default_text v => snd (Window_default_text_setter v w)
  | set_Window_icon v => snd (Window_icon_setter v w)
  | call_add_button v => snd (Window_add_button v w)
  | call_add_buttons it args => snd (Window_add_buttons it args w)
  | call_run code edited => snd (Window_run code edited w)
  end.

(** * Properties *)

(** ** Values and ordered dictionaries *)

(** Induction over values that reaches inside tuples, lists and
    dictionaries. *)
Lemma pyval_nested_ind (P : pyval -> Prop) :
  P PNone ->
  (forall s, P (PStr s)) ->
  (forall z, P (PInt z)) ->
  (forall xs, Forall P xs -> P (PTuple xs)) ->
  (forall xs, Forall P xs -> P (PList xs)) ->
  (forall kvs, Forall (fun kv => P (fst kv) /\ P (snd kv)) kvs -> P (PDict kvs)) ->
  (forall r, P (PItem r)) ->
  (forall i, P (PSep i)) ->
  (forall i, P (PObj i)) ->
  forall v, P v.
Proof.
  intros HNone HStr HInt HTuple HList HDict HItem HSep HObj.
  fix IH 1.
  intros [ | s | z | xs | xs | kvs | r | i | i ].
  - exact HNone.
  - apply HStr.
  - apply HInt.
  - apply HTuple. induction xs as [ | x xs IHxs ]; constructor; [ apply IH | exact IHxs ].
  - apply HList. induction xs as [ | x xs IHxs ]; constructor; [ apply IH | exact IHxs ].
  - apply HDict. induction kvs as [ | [k v] kvs IHkvs ]; constructor;
      [ split; apply IH | exact IHkvs ].
  - apply HItem.
  - apply HSep.
  - apply HObj.
Qed.

Lemma list_eqb_with_eq {A} (eqb : A -> A -> bool) (xs : list A) :
  Forall (fun x => forall y, eqb x y = true <-> x = y) xs ->
  forall ys, list_eqb_with eqb xs ys = true <-> xs = ys.
Proof.
  induction 1 as [ | x xs Hx _ IH ]; intros [ | y ys ]; simpl;
    try (split; [ discriminate | discriminate ]); try tauto.
  rewrite andb_true_iff, Hx, IH. split.
  - intros [-> ->]. reflexivity.
  - intros E. injection E as -> ->. split; reflexivity.
Qed.

Lemma pyval_eqb_eq (a b : pyval) : pyval_eqb a b = true <-> a = b.
Proof.
  revert b. induction a as [ | s | z | xs IH | xs IH | kvs IH | r | i | i ]
    using pyval_nested_ind; intros b; destruct b; simpl;
    try (split; [ discriminate | discriminate ]); try tauto.
  - rewrite String.eqb_eq. split; congruence.
  - rewrite Z.eqb_eq. split; congruence.
  - rewrite (list_eqb_with_eq pyval_eqb xs IH). split; congruence.
  - rewrite (list_eqb_with_eq pyval_eqb xs IH). split; congruence.
  - rewrite list_eqb_with_eq; [ split; congruence | ].
    eapply Forall_impl; [ exact IH | ].
    intros [k v] [Hk Hv] [k' v']. simpl in *.
    rewrite andb_true_iff, Hk, Hv. split; [ intros [-> ->]; reflexivity | ].
    intros E. injection E as -> ->. split; reflexivity.
  - rewrite Nat.eqb_eq. split; congruence.
  - rewrite N.eqb_eq. split; congruence.
  - rewrite N.eqb_eq. split; congruence.
Qed.

Lemma pyval_eqb_refl (a : pyval) : pyval_eqb a a = true.
Proof. apply pyval_eqb_eq. reflexivity. Qed.

Lemma pyval_eqb_neq (a b : pyval) : pyval_eqb a b = false <-> a <> b.
Proof.
  rewrite <- pyval_eqb_eq. destruct (pyval_eqb a b); split; congruence.
Qed.

Section OrderedDictFacts.
Context {V : Type}.
Implicit Types (d : list (pyval * V)) (k : pyval) (v : V).

Lemma od_contains_keys k d :
  od_contains k d = existsb (pyval_eqb k) (od_keys d).
Proof.
  unfold od_contains. induction d as [ | [k' v'] d IH ]; simpl; [ reflexivity | ].
  destruct (pyval_eqb k k'); [ reflexivity | exact IH ].
Qed.

Lemma od_keys_replace k v d : od_keys (od_replace k v d) = od_keys d.
Proof.
  induction d as [ | [k' v'] d IH ]; simpl; [ reflexivity | ].
  destruct (pyval_eqb k k'); simpl; [ reflexivity | f_equal; exact IH ].
Qed.

Lemma od_get_replace_same k v d :
  od_contains k d = true -> od_get k (od_replace k v d) = Some v.
Proof.
  unfold od_contains. induction d as [ | [k' v'] d IH ]; simpl; [ discriminate | ].
  destruct (pyval_eqb k k') eqn:E; simpl; rewrite E; [ reflexivity | exact IH ].
Qed.

Lemma od_get_replace_other k k' v d :
  k <> k' -> od_get k' (od_replace k v d) = od_get k' d.
Proof.
  intros Hne. induction d as [ | [k0 v0] d IH ]; simpl; [ reflexivity | ].
  destruct (pyval_eqb k k0) eqn:E; simpl.
  - apply pyval_eqb_eq in E. subst k0.
    destruct (pyval_eqb k' k) eqn:E'; [ | reflexivity ].
    apply pyval_eqb_eq in E'. congruence.
  - destruct (pyval_eqb k' k0); [ reflexivity | exact IH ].
Qed.

Lemma od_get_app k d d' :
  od_get k (d ++ d') = match od_get k d with Some v => Some v | None => od_get k d' end.
Proof.
  induction d as [ | [k0 v0] d IH ]; simpl; [ reflexivity | ].
  destruct (pyval_eqb k k0); [ reflexivity | exact IH ].
Qed.

Lemma od_contains_snoc_same k v d : od_contains k (d ++ [(k, v)]) = true.
Proof.
  unfold od_contains. rewrite od_get_app. destruct (od_get k d); [ reflexivity | ].
  simpl. rewrite pyval_eqb_refl. reflexivity.
Qed.

Lemma od_keys_snoc k v d : od_keys (d ++ [(k, v)]) = od_keys d ++ [k].
Proof. unfold od_keys. rewrite map_app. reflexivity. Qed.

End OrderedDictFacts.

(** ** Insertion into a menu level *)

Ltac run_monad :=
  unfold bind, ret, raise, undefined, get, put, deref in *; simpl in *.

(** Assigning under a key a MenuItem already holds returns at once. *)
Lemma MenuItem__setitem___present (self : ref) (key value : pyval) (st : store)
    (o : MenuItemObj) :
  hashable key = true ->
  heap st !! self = Some o ->
  od_contains key (items o) = true ->
  MenuItem__setitem__ self key value st = (Returns tt, st).
Proof.
  intros Hh Ho Hc. unfold MenuItem__setitem__. rewrite Hh. run_monad.
  rewrite Ho, Hc. reflexivity.
Qed.

(** After an assignment that returned, the MenuItem holds the key. *)
Lemma MenuItem__setitem___holds (self : ref) (key value : pyval) (st st1 : store) :
  MenuItem__setitem__ self key value st = (Returns tt, st1) ->
  hashable key = true /\
  exists o1, heap st1 !! self = Some o1 /\ od_contains key (items o1) = true.
Proof.
  unfold MenuItem__setitem__. destruct (hashable key) eqn:Hh; run_monad; [ | discriminate ].
  destruct (heap st !! self) as [ o | ] eqn:Ho; [ | discriminate ].
  destruct (od_contains key (items o)) eqn:Hc.
  - intros E. injection E as <-. split; [ reflexivity | ]. exists o. split; assumption.
  - destruct value; try discriminate. intros E. injection E as <-. simpl.
    split; [ reflexivity | ].
    eexists. split.
    + apply list_lookup_insert_eq. eapply lookup_lt_Some. exact Ho.
    + simpl. apply od_contains_snoc_same.
Qed.

(** C9: in a submenu node that already holds the title [t], assigning any
    value under [t], a MenuItem or not, returns without raising and leaves
    the node and the rest of the store as they were; the check of the
    value's type is never reached. *)
Theorem assignment_under_present_title_is_ignored
    (self : ref) (t : string) (v : pyval) (st : store) (o : MenuItemObj) :
  heap st !! self = Some o ->
  od_contains (PStr t) (items o) = true ->
  MenuItem__setitem__ self (PStr t) v st = (Returns tt, st).
Proof.
  intros Ho Hc. exact (MenuItem__setitem___present self (PStr t) v st o eq_refl Ho Hc).
Qed.

(** Two insertions under one key: in a submenu (a MenuItem) the second is a
    no-op, the store after both is the store after the first; at the top
    level (a plain OrderedDict) the second keeps the keys and their order and
    leaves the other entries and all MenuItems alone, but the key now holds
    the second value. *)
Lemma second_insertion_under_same_key
    (menu : target) (key v1 v2 : pyval) (st st1 : store) :
  setitem menu key v1 st = (Returns tt, st1) ->
  match menu with
  | AtItem r => setitem menu key v2 st1 = (Returns tt, st1)
  | AtTop =>
      exists st2,
        setitem menu key v2 st1 = (Returns tt, st2) /\
        od_keys (top st2) = od_keys (top st1) /\
        od_get key (top st2) = Some v2 /\
        (forall k, k <> key -> od_get k (top st2) = od_get k (top st1)) /\
        heap st2 = heap st1
  end.
Proof.
  destruct menu as [ | r ]; simpl.
  - unfold OrderedDict_setitem. destruct (hashable key) eqn:Hh; simpl; [ | discriminate ].
    intros H1.
    assert (Hc : od_contains key (top st1) = true).
    { destruct (od_contains key (top st)) eqn:Hc; injection H1 as <-; simpl.
      - rewrite od_contains_keys, od_keys_replace, <- od_contains_keys. exact Hc.
      - apply od_contains_snoc_same. }
    rewrite Hc. eexists. split; [ reflexivity | ]. simpl.
    split; [ apply od_keys_replace | ].
    split; [ apply od_get_replace_same; exact Hc | ].
    split; [ | reflexivity ].
    intros k Hk. apply od_get_replace_other. congruence.
  - intros H1. apply MenuItem__setitem___holds in H1 as (Hh & o1 & Ho1 & Hc).
    exact (MenuItem__setitem___present r key v2 st1 o1 Hh Ho1 Hc).
Qed.

(** ** The order of the keys of a level *)

Lemma bind_returns {S A B} (m : M S A) (k : A -> M S B) (s s' : S) (b : B) :
  bind m k s = (Returns b, s') ->
  exists a s1, m s = (Returns a, s1) /\ k a s1 = (Returns b, s').
Proof.
  unfold bind. destruct (m s) as [[ a | e | ] s1]; try discriminate.
  intros H. exists a, s1. split; [ reflexivity | exact H ].
Qed.

Lemma for_each_nil {S A} (f : A -> M S unit) (s : S) :
  for_each f [] s = (Returns tt, s).
Proof. reflexivity. Qed.

Lemma for_each_cons {S A} (f : A -> M S unit) (x : A) (l : list A) :
  for_each f (x :: l) = bind (f x) (fun _ => for_each f l).
Proof. reflexivity. Qed.

Lemma heap_ext_refl h : heap_ext h h.
Proof. intros r o Ho. exists o. split; [ exact Ho | reflexivity ]. Qed.

Lemma heap_ext_trans h1 h2 h3 : heap_ext h1 h2 -> heap_ext h2 h3 -> heap_ext h1 h3.
Proof.
  intros H12 H23 r o Ho. destruct (H12 r o Ho) as (o2 & Ho2 & Ht2).
  destruct (H23 r o2 Ho2) as (o3 & Ho3 & Ht3). exists o3. split; [ exact Ho3 | congruence ].
Qed.

Lemma heap_ext_alloc h o : heap_ext h (h ++ [o]).
Proof.
  intros r o' Ho'. exists o'. split; [ | reflexivity ].
  rewrite lookup_app_l; [ exact Ho' | ]. eapply lookup_lt_Some. exact Ho'.
Qed.

Lemma heap_ext_insert h r o o' :
  h !! r = Some o -> title o' = title o -> heap_ext h (<[r := o']> h).
Proof.
  intros Ho Ht r' o0 Ho0. destruct (decide (r = r')) as [ <- | Hne ].
  - exists o'. split; [ | congruence ].
    apply list_lookup_insert_eq. eapply lookup_lt_Some. exact Ho.
  - exists o0. split; [ | reflexivity ]. rewrite list_lookup_insert_ne; assumption.
Qed.

Lemma title_in_ext h h' r o :
  heap_ext h h' -> h !! r = Some o -> title_in h' r = title o.
Proof.
  intros Hext Ho. destruct (Hext r o Ho) as (o' & Ho' & Ht).
  unfold title_in. rewrite Ho'. exact Ht.
Qed.

Lemma record_keys_app seen a b :
  record_keys seen (a ++ b) = record_keys (record_keys seen a) b.
Proof. unfold record_keys. apply fold_left_app. Qed.

Lemma level_effect_seq menu st st1 st2 n1 n2 ks1 ks2 :
  level_effect menu st st1 n1 ks1 ->
  level_effect menu st1 st2 n2 ks2 ->
  level_effect menu st st2 (n1 + n2) (fun h => ks1 h ++ ks2 h).
Proof.
  intros (Hn1 & He1 & Ht1) (Hn2 & He2 & Ht2). split; [ lia | ].
  split; [ eapply heap_ext_trans; eassumption | ].
  destruct menu as [ | r ].
  - intros h Hh. rewrite record_keys_app.
    rewrite <- (Ht1 h); [ apply Ht2; exact Hh | ].
    eapply heap_ext_trans; eassumption.
  - congruence.
Qed.

(** A run that only works below the level: nothing is inserted at it. *)
Lemma level_effect_below menu st st' n :
  seps st' = seps st + n ->
  heap_ext (heap st) (heap st') ->
  top st' = top st ->
  level_effect menu st st' n (fun _ => []).
Proof.
  intros Hn He Ht. split; [ exact Hn | ]. split; [ exact He | ].
  destruct menu; [ | exact Ht ]. intros h _. rewrite Ht. reflexivity.
Qed.

Lemma level_effect_item r st st' n ks :
  seps st' = seps st + n ->
  heap_ext (heap st) (heap st') ->
  top st' = top st ->
  level_effect (AtItem r) st st' n ks.
Proof. intros Hn He Ht. split; [ exact Hn | ]. split; [ exact He | exact Ht ]. Qed.

Lemma level_effect_ext menu st st' n n' ks ks' :
  n = n' -> (forall h, ks h = ks' h) ->
  level_effect menu st st' n ks -> level_effect menu st st' n' ks'.
Proof.
  intros <- Hk (Hn & He & Ht). split; [ exact Hn | ]. split; [ exact He | ].
  destruct menu; [ | exact Ht ]. intros h Hh. rewrite <- Hk. apply Ht. exact Hh.
Qed.

Lemma setitem_level menu key value st st' :
  setitem menu key value st = (Returns tt, st') ->
  level_effect menu st st' 0 (fun _ => [key]).
Proof.
  destruct menu as [ | r ]; simpl.
  - unfold OrderedDict_setitem. destruct (hashable key); simpl; [ | discriminate ].
    intros H. unfold level_effect.
    assert (Hk : od_keys (top st') = record_key (od_keys (top st)) key
                 /\ heap st' = heap st /\ seps st' = seps st).
    { unfold record_key, key_in. rewrite <- od_contains_keys.
      destruct (od_contains key (top st)); injection H as <-; simpl.
      - rewrite od_keys_replace. auto.
      - rewrite od_keys_snoc. auto. }
    destruct Hk as (Hk & Hh & Hs). rewrite Hh, Hs.
    split; [ lia | ]. split; [ apply heap_ext_refl | ]. intros h _. exact Hk.
  - unfold MenuItem__setitem__. destruct (hashable key); run_monad; [ | discriminate ].
    destruct (heap st !! r) as [ o | ] eqn:Ho; [ | discriminate ].
    destruct (od_contains key (items o)).
    + intros E. injection E as <-. apply level_effect_item;
        [ lia | apply heap_ext_refl | reflexivity ].
    + destruct value; try discriminate. intros E. injection E as <-.
      apply level_effect_item; simpl; [ lia | | reflexivity ].
      eapply heap_ext_insert; [ exact Ho | reflexivity ].
Qed.

Lemma MenuItem__init___effect menu t st m st' :
  MenuItem__init__ t st = (Returns m, st') ->
  level_effect menu st st' 0 (fun _ => []).
Proof.
  unfold MenuItem__init__. intros E. injection E as <- <-.
  apply level_effect_below; simpl; [ lia | apply heap_ext_alloc | reflexivity ].
Qed.

Lemma getitem_state menu key st x st' :
  getitem menu key st = (x, st') -> st' = st.
Proof.
  destruct menu as [ | r ]; simpl.
  - intros E. injection E as _ <-. reflexivity.
  - unfold MenuItem__getitem__. run_monad.
    destruct (heap st !! r) as [ o | ]; [ | intros E; injection E as _ <-; reflexivity ].
    destruct (OrderedDict_getitem key (items o)); intros E; injection E as _ <-; reflexivity.
Qed.

Lemma add_leaf_level ele menu st st' :
  add_leaf ele menu st = (Returns tt, st') ->
  level_effect menu st st' 0 (fun _ => [ele]).
Proof.
  unfold add_leaf. intros H. apply bind_returns in H as (m & st1 & Hi & Hs).
  apply (MenuItem__init___effect menu) in Hi. apply setitem_level in Hs.
  exact (level_effect_seq _ _ _ _ _ _ _ _ Hi Hs).
Qed.

Lemma parse_pair_level t sub menu st st' :
  parse_menu_ok sub ->
  parse_pair parse_menu t sub menu st = (Returns tt, st') ->
  level_effect menu st st' (separators_in sub) (fun _ => [t]).
Proof.
  intros Hsub H. unfold parse_pair in H.
  apply bind_returns in H as (m & st1 & Hinit & H).
  apply bind_returns in H as ([] & st2 & Hset & H).
  apply bind_returns in H as (v & st3 & Hget & H).
  apply bind_returns in H as (tgt & st4 & Htgt & Hrec).
  apply getitem_state in Hget. subst st3.
  destruct v; try discriminate. injection Htgt as <- <-.
  apply (MenuItem__init___effect menu) in Hinit. apply setitem_level in Hset.
  apply Hsub in Hrec. destruct Hrec as (Hn & He & Ht).
  pose proof (level_effect_below menu _ _ _ Hn He Ht) as Hbelow.
  pose proof (level_effect_seq _ _ _ _ _ _ _ _ Hinit Hset) as H12.
  pose proof (level_effect_seq _ _ _ _ _ _ _ _ H12 Hbelow) as H123.
  revert H123. apply level_effect_ext; [ reflexivity | intros h; reflexivity ].
Qed.

Lemma elements_level xs :
  Forall parse_element_ok xs ->
  forall menu st st',
    for_each (fun ele => parse_element parse_menu ele menu) xs st = (Returns tt, st') ->
    level_effect menu st st' (sum_with separators_of xs)
                 (fun h => sequence_keys h (seps st) xs).
Proof.
  induction 1 as [ | x xs Hx _ IH ]; intros menu st st' H.
  - injection H as <-. apply level_effect_below;
      [ simpl; lia | apply heap_ext_refl | reflexivity ].
  - rewrite for_each_cons in H. apply bind_returns in H as ([] & st1 & H1 & H2).
    apply Hx in H1. apply IH in H2.
    pose proof (level_effect_seq _ _ _ _ _ _ _ _ H1 H2) as H12.
    revert H12. apply level_effect_ext; [ reflexivity | ].
    intros h. simpl. destruct H1 as (-> & _). reflexivity.
Qed.

Lemma mapping_level kvs :
  Forall (fun kv => parse_menu_ok (snd kv)) kvs ->
  forall menu st st',
    for_each (fun kv => let '(k, v) := kv in parse_pair parse_menu k v menu) kvs st
    = (Returns tt, st') ->
    level_effect menu st st'
                 (sum_with (fun kv => match kv with (_, v) => separators_in v end) kvs)
                 (fun _ => map fst kvs).
Proof.
  induction 1 as [ | [k v] kvs Hv _ IH ]; intros menu st st' H.
  - injection H as <-. apply level_effect_below;
      [ simpl; lia | apply heap_ext_refl | reflexivity ].
  - rewrite for_each_cons in H. apply bind_returns in H as ([] & st1 & H1 & H2).
    apply (parse_pair_level _ _ _ _ _ Hv) in H1. apply IH in H2.
    exact (level_effect_seq _ _ _ _ _ _ _ _ H1 H2).
Qed.

Lemma chars_level (l : list pyval) menu st st' :
  for_each (fun ele => add_leaf ele menu) l st = (Returns tt, st') ->
  level_effect menu st st' 0 (fun _ => l).
Proof.
  revert st. induction l as [ | c l IH ]; intros st H.
  - injection H as <-. apply level_effect_below;
      [ lia | apply heap_ext_refl | reflexivity ].
  - rewrite for_each_cons in H. apply bind_returns in H as ([] & st1 & H1 & H2).
    apply add_leaf_level in H1. apply IH in H2.
    exact (level_effect_seq _ _ _ _ _ _ _ _ H1 H2).
Qed.

Lemma separator_level menu st st' :
  parse_element parse_menu PNone menu st = (Returns tt, st') ->
  level_effect menu st st' 1 (fun _ => [PStr (str_of_id (id_of_sep (seps st)))]).
Proof.
  simpl. unfold separatorItem. run_monad. intros H. apply setitem_level in H.
  assert (H0 : level_effect menu st (mk_store (heap st) (top st) (S (seps st))) 1
                            (fun _ => [])).
  { apply level_effect_below; simpl; [ lia | apply heap_ext_refl | reflexivity ]. }
  exact (level_effect_seq _ _ _ _ _ _ _ _ H0 H).
Qed.

Lemma prebuilt_level r menu st st' :
  parse_element parse_menu (PItem r) menu st = (Returns tt, st') ->
  level_effect menu st st' 0 (fun h => [PStr (title_in h r)]).
Proof.
  simpl. unfold MenuItem_title. run_monad.
  destruct (heap st !! r) as [ o | ] eqn:Ho; [ | discriminate ].
  intros H. apply setitem_level in H. destruct H as (Hn & He & Ht).
  split; [ exact Hn | ]. split; [ exact He | ].
  destruct menu; [ | exact Ht ].
  intros h Hh. rewrite (title_in_ext (heap st) h r o); [ exact (Ht h Hh) | | exact Ho ].
  eapply heap_ext_trans; eassumption.
Qed.

Lemma sequence_element_level ele xs menu st st' :
  (ele = PTuple xs \/ ele = PList xs) ->
  Forall (fun x => parse_menu_ok x /\ parse_element_ok x) xs ->
  parse_element parse_menu ele menu st = (Returns tt, st') ->
  level_effect menu st st' (separators_of ele) (fun h => element_keys h (seps st) ele).
Proof.
  intros Hele Hxs H.
  destruct xs as [ | a [ | b [ | c xs ] ] ].
  - destruct Hele as [ -> | -> ]; discriminate.
  - assert (H' : add_leaf ele menu st = (Returns tt, st')).
    { destruct Hele as [ -> | -> ]; exact H. }
    apply add_leaf_level in H'. revert H'.
    apply level_effect_ext; destruct Hele as [ -> | -> ]; reflexivity.
  - assert (H' : parse_pair parse_menu a b menu st = (Returns tt, st')).
    { destruct Hele as [ -> | -> ]; exact H. }
    apply Forall_cons in Hxs as [_ Hxs]. apply Forall_cons in Hxs as [[Hb _] _].
    apply (parse_pair_level _ _ _ _ _ Hb) in H'. revert H'.
    apply level_effect_ext; destruct Hele as [ -> | -> ]; reflexivity.
  - destruct Hele as [ -> | -> ]; discriminate.
Qed.

(** Every declaration and every element: a run of the parser that returns
    made the separators the declaration asks for, lost no MenuItem, and
    extended the keys of its level in first-occurrence order. *)
Lemma parse_menu_level (v : pyval) : parse_menu_ok v /\ parse_element_ok v.
Proof.
  induction v as [ | s | z | xs IH | xs IH | kvs IH | r | i | i ]
    using pyval_nested_ind.
  - split; [ intros menu st st' H; discriminate | ].
    intros menu st st' H. apply separator_level. exact H.
  - split; intros menu st st' H.
    + apply chars_level. exact H.
    + apply add_leaf_level. exact H.
  - split; intros menu st st' H; discriminate.
  - split; intros menu st st' H.
    + apply (elements_level xs); [ | exact H ].
      eapply Forall_impl; [ exact IH | ]. intros x [_ Hx]. exact Hx.
    + eapply sequence_element_level; [ left; reflexivity | exact IH | exact H ].
  - split; intros menu st st' H.
    + apply (elements_level xs); [ | exact H ].
      eapply Forall_impl; [ exact IH | ]. intros x [_ Hx]. exact Hx.
    + eapply sequence_element_level; [ right; reflexivity | exact IH | exact H ].
  - assert (Hkvs : Forall (fun kv => parse_menu_ok (snd kv)) kvs).
    { eapply Forall_impl; [ exact IH | ]. intros kv [_ [Hv _]]. exact Hv. }
    split; intros menu st st' H; apply (mapping_level kvs Hkvs); exact H.
  - split; [ intros menu st st' H; discriminate | ].
    intros menu st st' H. apply prebuilt_level. exact H.
  - split; intros menu st st' H; discriminate.
  - split; intros menu st st' H; discriminate.
Qed.

(** When the menu setter returns, the keys of the top-level tree, in
    iteration order, are the keys the declaration declares at that level in
    first-occurrence order. *)
Lemma top_level_keys_follow_declaration
    (D : pyval) (self self' : AppObj) (st st' : store) :
  App_menu_setter D self st = (Returns self', st') ->
  match _menu self' with
  | None => D = PNone
  | Some d =>
      d = top st' /\
      od_keys d = first_occurrences (declared_keys (heap st') (seps st) D)
  end.
Proof.
  unfold App_menu_setter. intros H.
  apply bind_returns in H as (st0 & s0 & Hget & H). injection Hget as <- <-.
  apply bind_returns in H as ([] & s1 & Hput & H). injection Hput as <-.
  assert (Hparse : forall s2,
             bind (parse_menu D AtTop)
                  (fun _ => bind get (fun st2 => ret (set_menu (Some (top st2)) self)))
                  (set_top [] st) = (Returns self', s2) ->
             s2 = st' ->
             match _menu self' with
             | None => D = PNone
             | Some d =>
                 d = top st' /\
                 od_keys d = first_occurrences (declared_keys (heap st') (seps st) D)
             end).
  { intros s2 H2 ->. apply bind_returns in H2 as ([] & s3 & Hp & H2).
    injection H2 as <- <-. simpl. split; [ reflexivity | ].
    destruct (parse_menu_level D) as [HD _].
    destruct (HD AtTop _ _ Hp) as (_ & _ & Hk).
    exact (Hk (heap s3) (heap_ext_refl _)). }
  destruct D; try (apply (Hparse st' H eq_refl)).
  injection H as <- _. reflexivity.
Qed.

(** ** Separators *)

Lemma str_of_id_inj (i j : N) : str_of_id i = str_of_id j -> i = j.
Proof.
  unfold str_of_id. intros H. apply Unsigned.to_uint_inj.
  assert (E : Some (N.to_uint i) = Some (N.to_uint j)).
  { rewrite <- (NilEmpty.usu (N.to_uint i)), <- (NilEmpty.usu (N.to_uint j)), H.
    reflexivity. }
  injection E as E. exact E.
Qed.

(** C3, as the code has it: at the top level a separator is stored under
    the decimal string of its id; when no entry has that key yet, the
    insertion appends one entry and leaves every other entry and every
    MenuItem as it was; and separators with different ids get different
    keys. *)
Theorem separator_insertion_at_top_level (st : store) :
  od_contains (PStr (str_of_id (id_of_sep (seps st)))) (top st) = false ->
  parse_element parse_menu PNone AtTop st
  = (Returns tt,
     mk_store (heap st)
              (top st ++ [(PStr (str_of_id (id_of_sep (seps st))), PSep (id_of_sep (seps st)))])
              (S (seps st)))
  /\ (forall i j : N, i <> j -> PStr (str_of_id i) <> PStr (str_of_id j)).
Proof.
  intros Hfresh. split.
  - simpl. unfold separatorItem. run_monad. unfold OrderedDict_setitem. simpl.
    rewrite Hfresh. reflexivity.
  - intros i j Hne E. injection E as E. apply Hne, str_of_id_inj, E.
Qed.

(** Inside a submenu a separator whose key is not yet present is refused:
    the separator object is not a MenuItem. *)
Lemma separator_in_submenu_raises rec (r : ref) (o : MenuItemObj) (st : store) :
  heap st !! r = Some o ->
  od_contains (PStr (str_of_id (id_of_sep (seps st)))) (items o) = false ->
  parse_element rec PNone (AtItem r) st
  = (Raises (not_a_MenuItem (PSep (id_of_sep (seps st)))),
     mk_store (heap st) (top st) (S (seps st))).
Proof.
  intros Ho Hfresh. simpl. unfold separatorItem, MenuItem__setitem__. run_monad.
  rewrite Ho, Hfresh. reflexivity.
Qed.

(** Whatever ids the separator objects get, the title that is the decimal
    string of the first one collides with it: in [[title, None]] the
    separator takes the key of the leaf. *)
Lemma separator_key_can_collide :
  parse_menu (PList [PStr (str_of_id (id_of_sep 0)); PNone]) AtTop (mk_store [] [] 0)
  = (Returns tt,
     mk_store [mk_item (str_of_id (id_of_sep 0)) None "" None []]
              [(PStr (str_of_id (id_of_sep 0)), PSep (id_of_sep 0))] 1).
Proof.
  cbn -[str_of_id]. unfold add_leaf, MenuItem__init__, separatorItem. run_monad.
  unfold OrderedDict_setitem. cbn -[str_of_id].
  unfold od_contains. cbn -[str_of_id]. rewrite String.eqb_refl. reflexivity.
Qed.

(** ** The shape of an element *)

(** A sequence whose length is neither 1 nor 2 is refused with a ValueError
    that carries the element and its length. *)
Lemma bad_arity_raises rec (ele : pyval) (xs : list pyval) (menu : target) (st : store) :
  ele = PTuple xs \/ ele = PList xs ->
  length xs <> 1 -> length xs <> 2 ->
  parse_element rec ele menu st = (Raises (bad_shape ele (length xs)), st).
Proof.
  intros Hele H1 H2.
  destruct xs as [ | a [ | b [ | c xs ] ] ]; simpl in H1, H2; try congruence;
    destruct Hele as [ -> | -> ]; reflexivity.
Qed.

(** A sequence of length 2 is handled as a title and a submenu. *)
Lemma pair_is_title_and_submenu rec (ele t sub : pyval) (menu : target) :
  ele = PTuple [t; sub] \/ ele = PList [t; sub] ->
  parse_element rec ele menu = parse_pair rec t sub menu.
Proof. intros [ -> | -> ]; reflexivity. Qed.

(** A hashable sequence of length 1 becomes a leaf keyed by the sequence. *)
Lemma sequence_of_length_one_is_a_leaf rec (ele x : pyval) (menu : target) :
  ele = PTuple [x] \/ ele = PList [x] ->
  parse_element rec ele menu = add_leaf ele menu.
Proof. intros [ -> | -> ]; reflexivity. Qed.

(** C7, where the code departs from it: a list of length 1 never becomes a
    leaf.  The MenuItem for it is created, and the insertion under the list
    itself raises TypeError, at the top level and in every submenu. *)
Theorem list_of_length_one_raises rec (x : pyval) (menu : target) (st : store) :
  parse_element rec (PList [x]) menu st
  = (Raises (unhashable (PList [x])),
     set_heap (heap st ++ [mk_item (py_str (PList [x])) None "" None []]) st).
Proof. destruct menu; reflexivity. Qed.

(** ** The dispatcher *)

(** C2, as the code has it: the first attempt is always [f(event)]; a
    result is returned as it is; a failure that is not a TypeError is
    raised as it is, without a second attempt; a TypeError, whether the call
    did not bind or the body of [f] raised it, leads to the second attempt
    [f(self, event)], whose outcome is the outcome of the dispatch. *)
Theorem dispatch_retries_on_TypeError (app_instance : option pyval)
    (f : callable) (event : pyval) :
  let '(calls, result) := _call_as_function_or_method app_instance f event in
  (exists rest, calls = [event] :: rest) /\
  (forall r, py_call f [event] = Returns r -> calls = [[event]] /\ result = Returns r) /\
  (forall e, py_call f [event] = Raises e -> is_TypeError e = false ->
             calls = [[event]] /\ result = Raises e) /\
  (forall e self, py_call f [event] = Raises e -> is_TypeError e = true ->
                  app_instance = Some self ->
                  calls = [[event]; [self; event]] /\ result = py_call f [self; event]) /\
  (forall self, calls = [[event]; [self; event]] ->
                exists e, py_call f [event] = Raises e /\ is_TypeError e = true).
Proof.
  unfold _call_as_function_or_method.
  destruct (py_call f [event]) as [ r | e | ] eqn:E1;
    [ | destruct (is_TypeError e) eqn:Te; [ destruct app_instance as [ self | ] | ] | ];
    (split; [ eexists; reflexivity | ]);
    repeat split; intros; try congruence;
    try (eexists; split; [ reflexivity | assumption ]).
Qed.

(** ** Timer *)

(** C4, where the code departs from it: on a Timer as [__init__] leaves it,
    [stop] invalidates the NSTimer and then raises AttributeError, because
    [start] is an attribute of the class and not of the instance; and
    [start] can still be looked up and called afterwards. *)
Theorem Timer_stop_raises (callback : callable) (interval : Q) :
  let t := Timer__init__ callback interval in
  Timer_stop t
  = (Raises (no_attribute "start"), mk_timer (t_dict t) interval false 0) /\
  fst (Timer_getattr "start" (snd (Timer_stop t))) = Returns (AMethod "start") /\
  fst (call_start (snd (Timer_stop t))) = Returns tt.
Proof. repeat split. Qed.

(** X22.  [stop] returns only on an instance that was given an attribute
    [start] of its own. *)
Lemma Timer_stop_returns_iff (t : TimerObj) :
  dict_get "_nstimer" (t_dict t) = Some ANSTimer ->
  (exists t', Timer_stop t = (Returns tt, t')) <->
  (exists v, dict_get "start" (t_dict t) = Some v).
Proof.
  intros Hn. unfold Timer_stop, nstimer_send, Timer_getattr, Timer_delattr.
  run_monad. rewrite Hn. simpl.
  destruct (dict_get "start" (t_dict t)) as [ v | ]; split.
  - intros _. exists v. reflexivity.
  - intros _. eexists. reflexivity.
  - intros [t' H]. discriminate.
  - intros [v H]. discriminate.
Qed.

(** ** The title and the icon of an App *)

(** C8: assigning [None] to the title or to the icon returns at once; every
    attribute of the App, and the status bar with them, stays as it was. *)
Theorem assigning_None_is_ignored (a : AppObj) :
  App_title_setter PNone a = (Returns tt, a) /\
  App_icon_setter PNone a = (Returns tt, a).
Proof. split; reflexivity. Qed.

(** ** Binding the click registrations *)

Lemma subscript_state menuitem arg st x st' :
  subscript menuitem arg st = (x, st') -> st' = st.
Proof.
  destruct menuitem as [ d | v ]; simpl.
  - destruct (OrderedDict_getitem arg d); intros E; injection E as _ <-; reflexivity.
  - destruct v; simpl; run_monad;
      try (intros E; injection E as _ <-; reflexivity).
    + destruct (OrderedDict_getitem arg kvs); intros E; injection E as _ <-; reflexivity.
    + unfold MenuItem__getitem__. run_monad.
      destruct (heap st !! r) as [ o | ]; [ | intros E; injection E as _ <-; reflexivity ].
      destruct (OrderedDict_getitem arg (items o)); simpl;
        intros E; injection E as _ <-; reflexivity.
Qed.

Lemma follow_app menuitem l1 l2 st :
  follow menuitem (l1 ++ l2) st
  = bind (follow menuitem l1) (fun next => follow next l2) st.
Proof.
  revert menuitem st. induction l1 as [ | a l1 IH ]; intros menuitem st; simpl.
  - reflexivity.
  - unfold bind in *.
    destruct (subscript menuitem a st) as [[ next | e | ] st1]; try reflexivity.
    apply IH.
Qed.

Lemma for_each_app {S A} (f : A -> M S unit) (l1 l2 : list A) (s : S) :
  for_each f (l1 ++ l2) s = bind (for_each f l1) (fun _ => for_each f l2) s.
Proof.
  revert s. induction l1 as [ | x l1 IH ]; intros s; simpl.
  - reflexivity.
  - unfold bind in *. destruct (f x s) as [[ [] | e | ] s1]; try reflexivity.
    apply IH.
Qed.

Lemma strings_of_map_PStr (path : list string) : strings_of (map PStr path) = Some path.
Proof.
  induction path as [ | a path IH ]; simpl; [ reflexivity | ].
  rewrite IH. reflexivity.
Qed.

Lemma od_get_missing {V} (k : pyval) (d : list (pyval * V)) :
  key_in k (od_keys d) = false -> od_get k d = None.
Proof.
  unfold key_in. rewrite <- od_contains_keys. unfold od_contains.
  destruct (od_get k d); [ discriminate | reflexivity ].
Qed.

(** Subscripting a mapping with a title it does not hold raises KeyError. *)
Lemma subscript_missing menuitem (a : string) st ks :
  mapping_keys menuitem st = Some ks ->
  key_in (PStr a) ks = false ->
  exists e, subscript menuitem (PStr a) st = (Raises e, st) /\ exn_cls e = KeyError.
Proof.
  intros Hk Hmiss.
  destruct menuitem as [ d | v ]; [ | destruct v; try discriminate ]; simpl in Hk.
  - injection Hk as <-. apply od_get_missing in Hmiss.
    simpl. unfold OrderedDict_getitem. simpl. rewrite Hmiss.
    eexists. split; reflexivity.
  - injection Hk as <-. apply od_get_missing in Hmiss.
    simpl. unfold OrderedDict_getitem. simpl. rewrite Hmiss.
    eexists. split; reflexivity.
  - simpl. unfold MenuItem__getitem__. run_monad.
    destruct (heap st !! r) as [ o | ]; [ | discriminate ].
    injection Hk as <-. apply od_get_missing in Hmiss.
    unfold OrderedDict_getitem. simpl. rewrite Hmiss.
    eexists. split; reflexivity.
Qed.

(** C6: a registration made by [clicked] is only stored; when [run] binds
    the registrations in order and reaches one whose path names, at some
    step, a title that the mapping reached there does not hold, the binding
    raises the ValueError that carries the whole path joined with arrows,
    whatever registrations follow, and nothing is bound for it. *)
Theorem unresolved_click_path_raises
    (self : AppObj) (d : list (pyval * pyval))
    (pre : list string) (a : string) (post : list string) (f : callable)
    (earlier later : list registration) (st0 st : store)
    (reached : cursor) (ks : list pyval) :
  _menu self = Some d ->
  run_bind_clicks self earlier st0 = (Returns tt, st) ->
  fst (follow (AtMenu d) (map PStr pre) st) = Returns reached ->
  mapping_keys reached st = Some ks ->
  key_in (PStr a) ks = false ->
  run_bind_clicks self (clicked (map PStr (pre ++ a :: post)) f earlier ++ later) st0
  = (Raises (no_path_exists (String.concat " -> " (pre ++ a :: post))), st).
Proof.
  intros Hmenu Hearlier Hfollow Hkeys Hmiss.
  unfold run_bind_clicks, clicked in *.
  rewrite for_each_app. unfold bind at 1. rewrite for_each_app. unfold bind at 1.
  rewrite Hearlier. simpl. unfold bind at 1.
  assert (Hjoin : join_arrow (map PStr (pre ++ a :: post))
                  = Returns (String.concat " -> " (pre ++ a :: post))).
  { unfold join_arrow. rewrite strings_of_map_PStr. reflexivity. }
  assert (Hfol : exists e, follow (AtMenu d) (map PStr (pre ++ a :: post)) st = (Raises e, st)
                           /\ exn_cls e = KeyError).
  { rewrite map_app, follow_app. unfold bind at 1.
    destruct (follow (AtMenu d) (map PStr pre) st) as [x st1] eqn:Hf.
    simpl in Hfollow. subst x.
    assert (st1 = st) as ->.
    { clear -Hf. revert Hf. generalize (AtMenu d). generalize (map PStr pre).
      intros l. induction l as [ | b l IH ]; intros c; simpl.
      - intros E. injection E as _ <-. reflexivity.
      - unfold bind. destruct (subscript c b st) as [[ next | e | ] s1] eqn:Es;
          try discriminate.
        apply subscript_state in Es. subst s1. apply IH. }
    simpl. unfold bind at 1.
    destruct (subscript_missing reached a st ks Hkeys Hmiss) as (e & -> & He).
    exists e. split; [ reflexivity | exact He ]. }
  assert (Hreg : register_click (mk_registration (map PStr (pre ++ a :: post)) f) self st
                 = (Raises (no_path_exists (String.concat " -> " (pre ++ a :: post))), st)).
  { unfold register_click. rewrite Hmenu. cbn [click_args click_f]. unfold bind at 1.
    unfold except_KeyError_no_path.
    destruct Hfol as (e & -> & ->). rewrite Hjoin. reflexivity. }
  rewrite Hreg. reflexivity.
Qed.

(** ** The status-bar menu *)






(** ** The values of the top-level menu *)

Lemma keeps_bind {A B} (m : M store A) (k : A -> M store B) :
  keeps_top_values m -> (forall a, keeps_top_values (k a)) -> keeps_top_values (bind m k).
Proof.
  intros Hm Hk st x st' Hok. unfold bind.
  destruct (m st) as [[ a | e | ] s1] eqn:Em.
  - apply (Hk a). exact (Hm _ _ _ Hok Em).
  - intros E. injection E as _ <-. exact (Hm _ _ _ Hok Em).
  - intros E. injection E as _ <-. exact (Hm _ _ _ Hok Em).
Qed.

Lemma keeps_for_each {A} (f : A -> M store unit) (l : list A) :
  Forall (fun x => keeps_top_values (f x)) l -> keeps_top_values (for_each f l).
Proof.
  induction 1 as [ | x l Hx _ IH ].
  - intros st y st' Hok E. injection E as _ <-. exact Hok.
  - rewrite for_each_cons. apply keeps_bind; [ exact Hx | intros _; exact IH ].
Qed.

Lemma keeps_same_top {A} (m : M store A) :
  (forall st x st', m st = (x, st') -> top st' = top st) -> keeps_top_values m.
Proof.
  intros H st x st' Hok E. unfold top_values_ok. rewrite (H _ _ _ E). exact Hok.
Qed.

Lemma MenuItem__setitem___top self key value st x st' :
  MenuItem__setitem__ self key value st = (x, st') -> top st' = top st.
Proof.
  unfold MenuItem__setitem__. destruct (hashable key); run_monad;
    [ | intros E; injection E as _ <-; reflexivity ].
  destruct (heap st !! self) as [ o | ]; [ | intros E; injection E as _ <-; reflexivity ].
  destruct (od_contains key (items o)); [ intros E; injection E as _ <-; reflexivity | ].
  destruct value; intros E; injection E as _ <-; reflexivity.
Qed.

Lemma keeps_setitem menu key value :
  is_item_or_separator value = true -> keeps_top_values (setitem menu key value).
Proof.
  intros Hv. destruct menu as [ | r ]; simpl.
  - intros st x st' Hok. unfold OrderedDict_setitem.
    destruct (hashable key); simpl; [ | intros E; injection E as _ <-; exact Hok ].
    destruct (od_contains key (top st)); intros E; injection E as _ <-;
      unfold top_values_ok in *; simpl.
    + clear -Hok Hv. induction (top st) as [ | [k v] d IH ]; simpl in *; [ constructor | ].
      apply Forall_cons in Hok as [Hv0 Hd].
      destruct (pyval_eqb key k); simpl; constructor; auto.
    + rewrite map_app. apply Forall_app. split; [ exact Hok | ].
      constructor; [ exact Hv | constructor ].
  - apply keeps_same_top. apply MenuItem__setitem___top.
Qed.

Lemma keeps_MenuItem__init__ t : keeps_top_values (MenuItem__init__ t).
Proof. apply keeps_same_top. intros st x st' E. injection E as _ <-. reflexivity. Qed.

Lemma keeps_getitem menu key : keeps_top_values (getitem menu key).
Proof.
  apply keeps_same_top. intros st x st' E. apply getitem_state in E. congruence.
Qed.

Lemma keeps_as_target v : keeps_top_values (as_target v).
Proof.
  apply keeps_same_top. intros st x st' E. destruct v; injection E as _ <-; reflexivity.
Qed.

Lemma keeps_add_leaf ele menu : keeps_top_values (add_leaf ele menu).
Proof.
  unfold add_leaf. apply keeps_bind; [ apply keeps_MenuItem__init__ | ].
  intros m. apply keeps_setitem. reflexivity.
Qed.

Lemma keeps_raise {A} e : keeps_top_values (@raise store A e).
Proof. apply keeps_same_top. intros st x st' E. injection E as _ <-. reflexivity. Qed.

Lemma keeps_undefined {A} : keeps_top_values (@undefined store A).
Proof. apply keeps_same_top. intros st x st' E. injection E as _ <-. reflexivity. Qed.

Lemma keeps_parse_pair t sub menu :
  (forall tgt, keeps_top_values (parse_menu sub tgt)) ->
  keeps_top_values (parse_pair parse_menu t sub menu).
Proof.
  intros Hsub. unfold parse_pair.
  apply keeps_bind; [ apply keeps_MenuItem__init__ | intros m ].
  apply keeps_bind; [ apply keeps_setitem; reflexivity | intros _ ].
  apply keeps_bind; [ apply keeps_getitem | intros v ].
  apply keeps_bind; [ apply keeps_as_target | intros tgt ].
  apply Hsub.
Qed.

Lemma keeps_separator menu : keeps_top_values (parse_element parse_menu PNone menu).
Proof.
  simpl. apply keeps_bind.
  - apply keeps_same_top. intros st x st' E. injection E as _ <-. reflexivity.
  - intros sep. destruct sep; try apply keeps_undefined.
    apply keeps_setitem. reflexivity.
Qed.

Lemma keeps_prebuilt r menu : keeps_top_values (parse_element parse_menu (PItem r) menu).
Proof.
  simpl. apply keeps_bind.
  - apply keeps_same_top. unfold MenuItem_title. run_monad. intros st x st'.
    destruct (heap st !! r); intros E; injection E as _ <-; reflexivity.
  - intros t. apply keeps_setitem. reflexivity.
Qed.

Lemma keeps_sequence_element ele xs menu :
  ele = PTuple xs \/ ele = PList xs ->
  Forall (fun x => forall tgt, keeps_top_values (parse_menu x tgt)) xs ->
  keeps_top_values (parse_element parse_menu ele menu).
Proof.
  intros Hele Hxs. destruct xs as [ | a [ | b [ | c xs ] ] ].
  - destruct Hele as [ -> | -> ]; apply keeps_raise.
  - destruct Hele as [ -> | -> ]; apply keeps_add_leaf.
  - apply Forall_cons in Hxs as [_ Hxs]. apply Forall_cons in Hxs as [Hb _].
    destruct Hele as [ -> | -> ]; apply keeps_parse_pair; exact Hb.
  - destruct Hele as [ -> | -> ]; apply keeps_raise.
Qed.

Lemma parse_menu_keeps_top_values (v : pyval) :
  (forall menu, keeps_top_values (parse_menu v menu)) /\
  (forall menu, keeps_top_values (parse_element parse_menu v menu)).
Proof.
  induction v as [ | s | z | xs IH | xs IH | kvs IH | r | i | i ]
    using pyval_nested_ind.
  - split; intros menu; [ apply keeps_raise | apply keeps_separator ].
  - split; intros menu; [ | apply keeps_add_leaf ].
    apply keeps_for_each. apply Forall_forall. intros x _. apply keeps_add_leaf.
  - split; intros menu; apply keeps_raise.
  - split; intros menu.
    + apply keeps_for_each. eapply Forall_impl; [ exact IH | ].
      intros x [_ Hx]. apply Hx.
    + eapply keeps_sequence_element; [ left; reflexivity | ].
      eapply Forall_impl; [ exact IH | ]. intros x [Hx _]. exact Hx.
  - split; intros menu.
    + apply keeps_for_each. eapply Forall_impl; [ exact IH | ].
      intros x [_ Hx]. apply Hx.
    + eapply keeps_sequence_element; [ right; reflexivity | ].
      eapply Forall_impl; [ exact IH | ]. intros x [Hx _]. exact Hx.
  - assert (H : forall menu, keeps_top_values (parse_menu (PDict kvs) menu)).
    { intros menu. simpl. apply keeps_for_each. eapply Forall_impl; [ exact IH | ].
      intros [k v] [_ [Hv _]]. apply keeps_parse_pair. exact Hv. }
    split; exact H.
  - split; intros menu; [ apply keeps_undefined | apply keeps_prebuilt ].
  - split; intros menu; apply keeps_raise.
  - split; intros menu; apply keeps_raise.
Qed.

(** X21.  Every menu the setter builds from a declaration in which no
    MenuItem stands where a declaration is iterated can be rendered: each of
    its values is a MenuItem or a separator, and calling it gives a native
    item. *)
Lemma menu_setter_values_render (D : pyval) (self self' : AppObj) (st st' : store) :
  iterates_no_MenuItem D = true ->
  App_menu_setter D self st = (Returns self', st') ->
  exists entries,
    Forall2 (fun v it => call_item v = Returns it) (menu_values self') entries.
Proof.
  intros _ H.
  assert (Hok : Forall (fun v => is_item_or_separator v = true) (menu_values self')).
  { unfold App_menu_setter in H.
    apply bind_returns in H as (st0 & s0 & Hget & H). injection Hget as <- <-.
    apply bind_returns in H as ([] & s1 & Hput & H). injection Hput as <-.
    assert (Hparse : bind (parse_menu D AtTop)
                          (fun _ => bind get (fun st2 => ret (set_menu (Some (top st2)) self)))
                          (set_top [] st) = (Returns self', st') ->
                     Forall (fun v => is_item_or_separator v = true) (menu_values self')).
    { intros H2. apply bind_returns in H2 as ([] & s3 & Hp & H2).
      injection H2 as <- <-. unfold menu_values. simpl.
      destruct (parse_menu_keeps_top_values D) as [HD _].
      apply (HD AtTop (set_top [] st) (Returns tt) s3); [ constructor | exact Hp ]. }
    destruct D; try (apply Hparse; exact H).
    injection H as <- _. constructor. }
  clear H. induction Hok as [ | v vs Hv _ [entries IH] ].
  - exists []. constructor.
  - destruct v; try discriminate.
    + exists (NSItemOf r :: entries). constructor; [ reflexivity | exact IH ].
    + exists (NSSeparator :: entries). constructor; [ reflexivity | exact IH ].
Qed.

(** ** The order of the keys of a submenu *)

Lemma built_effect_seq menu st st1 st2 ks1 ks2 :
  built_effect menu st st1 ks1 ->
  built_effect menu st1 st2 ks2 ->
  built_effect menu st st2 (ks1 ++ ks2).
Proof.
  intros (Ho1 & Hl1 & H1) (Ho2 & Hl2 & H2). split; [ exact Ho2 | ]. split; [ lia | ].
  destruct menu as [ | r ]; [ exact I | ].
  destruct H1 as (Hf1 & o & o1 & Ho & Hr1 & Hk1).
  destruct H2 as (Hf2 & o1' & o2 & Hr1' & Hr2 & Hk2).
  split.
  - intros r' Hr'. rewrite Hf2, Hf1; auto.
  - exists o, o2. split; [ exact Ho | ]. split; [ exact Hr2 | ].
    assert (o1' = o1) by congruence. subst o1'.
    rewrite record_keys_app, <- Hk1. exact Hk2.
Qed.

Lemma built_effect_valid menu st st' ks :
  built_effect menu st st' ks -> valid_target menu st -> valid_target menu st'.
Proof. destruct menu; simpl; intros (_ & Hl & _); [ tauto | lia ]. Qed.

(** A step that changes no MenuItem up to the level's own. *)
Lemma built_effect_frame menu st st' :
  ordered (heap st') ->
  length (heap st) <= length (heap st') ->
  match menu with
  | AtTop => True
  | AtItem r => forall r', r' <= r -> heap st' !! r' = heap st !! r'
  end ->
  valid_target menu st ->
  built_effect menu st st' [].
Proof.
  intros Ho Hl Hf Hv. split; [ exact Ho | ]. split; [ exact Hl | ].
  destruct menu as [ | r ]; [ exact I | ]. simpl in Hv.
  split; [ intros r' Hr'; apply Hf; lia | ].
  destruct (proj2 (lookup_lt_is_Some (heap st) r) Hv) as [o Hr].
  exists o, o. split; [ exact Hr | ]. split; [ | reflexivity ].
  rewrite Hf; [ exact Hr | lia ].
Qed.

Lemma ordered_alloc h o : ordered h -> items o = [] -> ordered (h ++ [o]).
Proof.
  intros Hord Hempty r o0 k c Hr Hin. rewrite length_app. simpl.
  destruct (decide (r < length h)) as [ Hlt | Hge ].
  - rewrite lookup_app_l in Hr by exact Hlt. specialize (Hord r o0 k c Hr Hin). lia.
  - rewrite lookup_app_r in Hr by lia.
    destruct (r - length h) as [ | n ]; simpl in Hr; [ | discriminate ].
    injection Hr as <-. rewrite Hempty in Hin. destruct Hin.
Qed.

Lemma ordered_insert h r o o' k m :
  ordered h -> h !! r = Some o -> r < m < length h ->
  items o' = items o ++ [(k, m)] ->
  ordered (<[r := o']> h).
Proof.
  intros Hord Hr Hm Hitems r0 o0 k0 c Hr0 Hin. rewrite length_insert.
  destruct (decide (r = r0)) as [ <- | Hne ].
  - rewrite list_lookup_insert_eq in Hr0 by (eapply lookup_lt_Some; exact Hr).
    injection Hr0 as <-. rewrite Hitems in Hin. apply in_app_iff in Hin as [ Hin | Hin ].
    + exact (Hord r o k0 c Hr Hin).
    + destruct Hin as [ E | [] ]. injection E as _ <-. exact Hm.
  - rewrite list_lookup_insert_ne in Hr0 by exact Hne. exact (Hord r0 o0 k0 c Hr0 Hin).
Qed.

Lemma od_get_In {V} (k : pyval) (d : list (pyval * V)) (v : V) :
  od_get k d = Some v -> exists k', In (k', v) d.
Proof.
  induction d as [ | [k0 v0] d IH ]; simpl; [ discriminate | ].
  destruct (pyval_eqb k k0).
  - intros E. injection E as <-. exists k0. left. reflexivity.
  - intros E. destruct (IH E) as [k' Hin]. exists k'. right. exact Hin.
Qed.

Lemma setitem_built menu key value st st' :
  ordered (heap st) -> valid_target menu st ->
  (forall m, value = PItem m ->
             m < length (heap st) /\
             match menu with AtItem r => r < m | AtTop => True end) ->
  setitem menu key value st = (Returns tt, st') ->
  built_effect menu st st' [key] /\ length (heap st') = length (heap st).
Proof.
  intros Hord Hv Hm. destruct menu as [ | r ]; simpl.
  - unfold OrderedDict_setitem. destruct (hashable key); simpl; [ | discriminate ].
    intros H.
    assert (Hh : heap st' = heap st).
    { destruct (od_contains key (top st)); injection H as <-; reflexivity. }
    unfold built_effect. rewrite Hh.
    split; [ split; [ exact Hord | split; [ lia | exact I ] ] | reflexivity ].
  - unfold MenuItem__setitem__. destruct (hashable key); run_monad; [ | discriminate ].
    destruct (heap st !! r) as [ o | ] eqn:Hr; [ | discriminate ].
    destruct (od_contains key (items o)) eqn:Hc.
    + intros E. injection E as <-. split; [ | reflexivity ].
      split; [ exact Hord | ]. split; [ lia | ]. split; [ reflexivity | ].
      exists o, o. split; [ exact Hr | ]. split; [ exact Hr | ].
      simpl. unfold record_key, key_in. rewrite <- od_contains_keys, Hc. reflexivity.
    + destruct value; try discriminate. intros E. injection E as <-. simpl.
      destruct (Hm r0 eq_refl) as [Hlt Hrm]. simpl in Hrm.
      split; [ | apply length_insert ].
      split; [ eapply (ordered_insert _ _ _ _ key r0);
               [ exact Hord | exact Hr | lia | reflexivity ] | ].
      split; [ simpl; rewrite length_insert; lia | ].
      split; [ intros r' Hr'; simpl; apply list_lookup_insert_ne; lia | ].
      eexists o, _. split; [ exact Hr | ].
      split; [ simpl; apply list_lookup_insert_eq; eapply lookup_lt_Some; exact Hr | ].
      simpl. rewrite od_keys_snoc. unfold record_key, key_in.
      rewrite <- od_contains_keys, Hc. reflexivity.
Qed.

Lemma MenuItem__init___built menu t st m st' :
  ordered (heap st) -> valid_target menu st ->
  MenuItem__init__ t st = (Returns m, st') ->
  built_effect menu st st' [] /\ m = length (heap st) /\
  length (heap st') = S (length (heap st)).
Proof.
  intros Hord Hv E. injection E as <- <-. simpl.
  split; [ | split; [ reflexivity | rewrite length_app; simpl; lia ] ].
  apply built_effect_frame; simpl.
  - apply ordered_alloc; [ exact Hord | reflexivity ].
  - rewrite length_app. lia.
  - destruct menu as [ | r ]; [ exact I | ]. simpl in Hv.
    intros r' Hr'. apply lookup_app_l. lia.
  - exact Hv.
Qed.

Lemma getitem_after_setitem_top key m st st2 :
  setitem AtTop key (PItem m) st = (Returns tt, st2) ->
  getitem AtTop key st2 = (Returns (PItem m), st2).
Proof.
  simpl. unfold OrderedDict_setitem, OrderedDict_getitem.
  destruct (hashable key); simpl; [ | discriminate ].
  destruct (od_contains key (top st)) eqn:Hc; intros E; injection E as <-; simpl.
  - rewrite (od_get_replace_same _ _ _ Hc). reflexivity.
  - rewrite od_get_app. unfold od_contains in Hc.
    destruct (od_get key (top st)); [ discriminate | ].
    simpl. rewrite pyval_eqb_refl. reflexivity.
Qed.

Lemma getitem_item_child r key st v st' :
  ordered (heap st) ->
  getitem (AtItem r) key st = (Returns v, st') ->
  exists c, v = PItem c /\ r < c < length (heap st).
Proof.
  intros Hord. simpl. unfold MenuItem__getitem__, OrderedDict_getitem. run_monad.
  destruct (heap st !! r) as [ o | ] eqn:Hr; [ | discriminate ].
  destruct (hashable key); simpl; [ | discriminate ].
  destruct (od_get key (items o)) as [ c | ] eqn:Hg; [ | discriminate ].
  intros E. injection E as <- _. exists c. split; [ reflexivity | ].
  destruct (od_get_In _ _ _ Hg) as [k' Hin]. exact (Hord r o k' c Hr Hin).
Qed.

Lemma parse_pair_built t sub menu st st' :
  parse_menu_built sub -> no_prebuilt sub = true ->
  ordered (heap st) -> valid_target menu st ->
  parse_pair parse_menu t sub menu st = (Returns tt, st') ->
  built_effect menu st st' [t].
Proof.
  intros Hsub Hnp Hord Hv H. unfold parse_pair in H.
  apply bind_returns in H as (m & st1 & Hinit & H).
  apply bind_returns in H as ([] & st2 & Hset & H).
  apply bind_returns in H as (v & st3 & Hget & H).
  apply bind_returns in H as (tgt & st4 & Htgt & Hrec).
  pose proof (getitem_state _ _ _ _ _ Hget) as ->.
  destruct (MenuItem__init___built menu _ _ _ _ Hord Hv Hinit) as (E1 & Hm & Hl1).
  pose proof (built_effect_valid _ _ _ _ E1 Hv) as Hv1.
  destruct (setitem_built menu t (PItem m) st1 st2 (proj1 E1) Hv1) as (E2 & Hl2);
    [ | exact Hset | ].
  { intros m' E. injection E as <-. split; [ lia | ].
    destruct menu as [ | r ]; [ exact I | ]. simpl in Hv. lia. }
  pose proof (built_effect_valid _ _ _ _ E2 Hv1) as Hv2.
  assert (Hc : exists c, v = PItem c /\ c < length (heap st2) /\
                         match menu with AtItem r => r < c | AtTop => True end).
  { destruct menu as [ | r ].
    - rewrite (getitem_after_setitem_top _ _ _ _ Hset) in Hget. injection Hget as <-.
      exists m. split; [ reflexivity | ]. split; [ lia | exact I ].
    - destruct (getitem_item_child _ _ _ _ _ (proj1 E2) Hget) as (c & -> & Hc).
      exists c. split; [ reflexivity | ]. split; lia. }
  destruct Hc as (c & -> & Hclt & Hrc). injection Htgt as <- <-.
  pose proof (Hsub Hnp [] (AtItem c) st2 st' (proj1 E2) Hclt Hrec) as (Ho3 & Hl3 & Hf3 & _).
  assert (E3 : built_effect menu st2 st' []).
  { apply built_effect_frame; [ exact Ho3 | exact Hl3 | | exact Hv2 ].
    destruct menu as [ | r ]; [ exact I | ]. intros r' Hr'. apply Hf3. lia. }
  exact (built_effect_seq _ _ _ _ _ _ (built_effect_seq _ _ _ _ _ _ E1 E2) E3).
Qed.

Lemma built_effect_nothing menu st :
  ordered (heap st) -> valid_target menu st -> built_effect menu st st [].
Proof.
  intros Hord Hv. apply built_effect_frame; [ exact Hord | lia | | exact Hv ].
  destruct menu; [ exact I | reflexivity ].
Qed.

Lemma elements_built xs :
  Forall parse_element_built xs ->
  forallb no_prebuilt xs = true ->
  forall h menu st st',
    ordered (heap st) -> valid_target menu st ->
    for_each (fun ele => parse_element parse_menu ele menu) xs st = (Returns tt, st') ->
    built_effect menu st st' (sequence_keys h (seps st) xs).
Proof.
  induction 1 as [ | x xs Hx _ IH ]; intros Hnp h menu st st' Hord Hv H.
  - injection H as <-. apply built_effect_nothing; assumption.
  - simpl in Hnp. apply andb_true_iff in Hnp as [Hnx Hnxs].
    rewrite for_each_cons in H. apply bind_returns in H as ([] & st1 & H1 & H2).
    destruct (parse_menu_level x) as [_ Hlevel].
    destruct (Hlevel menu st st1 H1) as (Hseps & _).
    pose proof (Hx Hnx h menu st st1 Hord Hv H1) as E1.
    pose proof (IH Hnxs h menu st1 st' (proj1 E1) (built_effect_valid _ _ _ _ E1 Hv) H2)
      as E2.
    simpl. rewrite <- Hseps. exact (built_effect_seq _ _ _ _ _ _ E1 E2).
Qed.

Lemma mapping_built kvs :
  Forall (fun kv => parse_menu_built (snd kv)) kvs ->
  forallb (fun kv => match kv with (k, x) => no_prebuilt k && no_prebuilt x end) kvs = true ->
  forall menu st st',
    ordered (heap st) -> valid_target menu st ->
    for_each (fun kv => let '(k, v) := kv in parse_pair parse_menu k v menu) kvs st
    = (Returns tt, st') ->
    built_effect menu st st' (map fst kvs).
Proof.
  induction 1 as [ | [k v] kvs Hv0 _ IH ]; intros Hnp menu st st' Hord Hv H.
  - injection H as <-. apply built_effect_nothing; assumption.
  - simpl in Hnp. apply andb_true_iff in Hnp as [Hnkv Hnkvs].
    apply andb_true_iff in Hnkv as [_ Hnv].
    rewrite for_each_cons in H. apply bind_returns in H as ([] & st1 & H1 & H2).
    pose proof (parse_pair_built _ _ _ _ _ Hv0 Hnv Hord Hv H1) as E1.
    pose proof (IH Hnkvs menu st1 st' (proj1 E1) (built_effect_valid _ _ _ _ E1 Hv) H2)
      as E2.
    exact (built_effect_seq _ _ _ _ _ _ E1 E2).
Qed.

Lemma add_leaf_built ele menu st st' :
  ordered (heap st) -> valid_target menu st ->
  add_leaf ele menu st = (Returns tt, st') ->
  built_effect menu st st' [ele].
Proof.
  intros Hord Hv H. unfold add_leaf in H.
  apply bind_returns in H as (m & st1 & Hinit & Hset).
  destruct (MenuItem__init___built menu _ _ _ _ Hord Hv Hinit) as (E1 & Hm & Hl1).
  pose proof (built_effect_valid _ _ _ _ E1 Hv) as Hv1.
  destruct (setitem_built menu ele (PItem m) st1 st' (proj1 E1) Hv1) as (E2 & _);
    [ | exact Hset | ].
  { intros m' E. injection E as <-. split; [ lia | ].
    destruct menu as [ | r ]; [ exact I | ]. simpl in Hv. lia. }
  exact (built_effect_seq _ _ _ _ _ _ E1 E2).
Qed.

Lemma chars_built (l : list pyval) menu st st' :
  ordered (heap st) -> valid_target menu st ->
  for_each (fun ele => add_leaf ele menu) l st = (Returns tt, st') ->
  built_effect menu st st' l.
Proof.
  revert st. induction l as [ | c l IH ]; intros st Hord Hv H.
  - injection H as <-. apply built_effect_nothing; assumption.
  - rewrite for_each_cons in H. apply bind_returns in H as ([] & st1 & H1 & H2).
    pose proof (add_leaf_built _ _ _ _ Hord Hv H1) as E1.
    pose proof (IH st1 (proj1 E1) (built_effect_valid _ _ _ _ E1 Hv) H2) as E2.
    exact (built_effect_seq _ _ _ _ _ _ E1 E2).
Qed.

Lemma separator_built menu st st' :
  ordered (heap st) -> valid_target menu st ->
  parse_element parse_menu PNone menu st = (Returns tt, st') ->
  built_effect menu st st' [PStr (str_of_id (id_of_sep (seps st)))].
Proof.
  intros Hord Hv. simpl. unfold separatorItem. run_monad. intros H.
  destruct (setitem_built menu (PStr (str_of_id (id_of_sep (seps st))))
              (PSep (id_of_sep (seps st)))
              (mk_store (heap st) (top st) (S (seps st))) st' Hord Hv) as (E & _);
    [ | exact H | ].
  { intros m E. discriminate. }
  destruct E as (Ho & Hl & Hk). split; [ exact Ho | ]. split; [ exact Hl | exact Hk ].
Qed.

Lemma sequence_element_built ele xs menu st st' h :
  (ele = PTuple xs \/ ele = PList xs) ->
  Forall (fun x => parse_menu_built x /\ parse_element_built x) xs ->
  forallb no_prebuilt xs = true ->
  ordered (heap st) -> valid_target menu st ->
  parse_element parse_menu ele menu st = (Returns tt, st') ->
  built_effect menu st st' (element_keys h (seps st) ele).
Proof.
  intros Hele Hxs Hnp Hord Hv H.
  destruct xs as [ | a [ | b [ | c xs ] ] ].
  - destruct Hele as [ -> | -> ]; discriminate.
  - assert (H' : add_leaf ele menu st = (Returns tt, st')).
    { destruct Hele as [ -> | -> ]; exact H. }
    apply add_leaf_built in H'; [ | assumption | assumption ].
    destruct Hele as [ -> | -> ]; exact H'.
  - assert (H' : parse_pair parse_menu a b menu st = (Returns tt, st')).
    { destruct Hele as [ -> | -> ]; exact H. }
    apply Forall_cons in Hxs as [_ Hxs]. apply Forall_cons in Hxs as [[Hb _] _].
    simpl in Hnp. apply andb_true_iff in Hnp as [_ Hnp].
    apply andb_true_iff in Hnp as [Hnb _].
    pose proof (parse_pair_built _ _ _ _ _ Hb Hnb Hord Hv H') as E.
    destruct Hele as [ -> | -> ]; exact E.
  - destruct Hele as [ -> | -> ]; discriminate.
Qed.

(** On a declaration without pre-built MenuItems and an ordered store, a
    run of the parser that returns extends the keys of the MenuItem it works
    on in first-occurrence order and changes no earlier MenuItem. *)
Lemma parse_menu_built_all (v : pyval) : parse_menu_built v /\ parse_element_built v.
Proof.
  induction v as [ | s | z | xs IH | xs IH | kvs IH | r | i | i ]
    using pyval_nested_ind.
  - split; intros Hnp h menu st st' Hord Hv H; [ discriminate | ].
    apply separator_built; assumption.
  - split; intros Hnp h menu st st' Hord Hv H.
    + apply chars_built; assumption.
    + apply add_leaf_built; assumption.
  - split; intros Hnp h menu st st' Hord Hv H; discriminate.
  - split; intros Hnp h menu st st' Hord Hv H.
    + apply (elements_built xs); try assumption.
      eapply Forall_impl; [ exact IH | ]. intros x [_ Hx]. exact Hx.
    + eapply sequence_element_built; try eassumption. left. reflexivity.
  - split; intros Hnp h menu st st' Hord Hv H.
    + apply (elements_built xs); try assumption.
      eapply Forall_impl; [ exact IH | ]. intros x [_ Hx]. exact Hx.
    + eapply sequence_element_built; try eassumption. right. reflexivity.
  - assert (Hkvs : Forall (fun kv => parse_menu_built (snd kv)) kvs).
    { eapply Forall_impl; [ exact IH | ]. intros kv [_ [Hv _]]. exact Hv. }
    split; intros Hnp h menu st st' Hord Hv H;
      apply (mapping_built kvs Hkvs); assumption.
  - split; intros Hnp; discriminate.
  - split; intros Hnp h menu st st' Hord Hv H; discriminate.
  - split; intros Hnp h menu st st' Hord Hv H; discriminate.
Qed.

(** Level by level: when the menu setter returns, the keys of the
    top-level tree, in iteration order, are the keys the declaration
    declares at that level in first-occurrence order; and every run of the
    parser on the declaration of a submenu, when the declaration holds no
    pre-built MenuItem and the store is ordered, extends the keys of that
    submenu in the first-occurrence order of the keys declared for it.  At
    every level the entries of a nested mapping are merged in where the
    mapping stands; a nested sequence is not merged: one of length 1 is a
    single key, one of length 2 gives its first component, the title of a
    pair. *)
Theorem menu_keys_follow_declaration_order (D : pyval) :
  (forall (self self' : AppObj) (st st' : store),
      App_menu_setter D self st = (Returns self', st') ->
      match _menu self' with
      | None => D = PNone
      | Some d =>
          d = top st' /\
          od_keys d = first_occurrences (declared_keys (heap st') (seps st) D)
      end) /\
  (forall (r : ref) (o : MenuItemObj) (st st' : store),
      no_prebuilt D = true ->
      ordered (heap st) ->
      heap st !! r = Some o ->
      parse_menu D (AtItem r) st = (Returns tt, st') ->
      exists o',
        heap st' !! r = Some o' /\
        od_keys (items o')
        = record_keys (od_keys (items o)) (declared_keys (heap st') (seps st) D)).
Proof.
  split.
  - intros self self' st st'. apply top_level_keys_follow_declaration.
  - intros r o st st' Hnp Hord Hr H.
    destruct (parse_menu_built_all D) as [HD _].
    destruct (HD Hnp (heap st') (AtItem r) st st' Hord) as (_ & _ & _ & o0 & o' & Hr0 & Hr' & Hk);
      [ eapply lookup_lt_Some; exact Hr | exact H | ].
    exists o'. split; [ exact Hr' | ]. congruence.
Qed.

(** ** What the parser keeps, however it ends *)

Section Steps.
Variable R : store -> store -> Prop.
Hypothesis R_refl : forall st, R st st.
Hypothesis R_trans : forall st1 st2 st3, R st1 st2 -> R st2 st3 -> R st1 st3.

Lemma steps_bind {A B} (m : M store A) (k : A -> M store B) :
  steps R m -> (forall a, steps R (k a)) -> steps R (bind m k).
Proof.
  intros Hm Hk st x st'. unfold bind.
  destruct (m st) as [[ a | e | ] s1] eqn:Em.
  - intros E. exact (R_trans _ _ _ (Hm _ _ _ Em) (Hk a _ _ _ E)).
  - intros E. injection E as _ <-. exact (Hm _ _ _ Em).
  - intros E. injection E as _ <-. exact (Hm _ _ _ Em).
Qed.

Lemma steps_for_each {A} (f : A -> M store unit) (l : list A) :
  (forall x, steps R (f x)) -> steps R (for_each f l).
Proof.
  intros Hf. induction l as [ | x l IH ].
  - intros st y st' E. injection E as _ <-. apply R_refl.
  - rewrite for_each_cons. apply steps_bind; [ apply Hf | intros _; exact IH ].
Qed.

Lemma steps_same_store {A} (m : M store A) :
  (forall st x st', m st = (x, st') -> st' = st) -> steps R m.
Proof. intros H st x st' E. rewrite (H _ _ _ E). apply R_refl. Qed.

Hypothesis R_init : forall t, steps R (MenuItem__init__ t).
Hypothesis R_setitem : forall menu key value, steps R (setitem menu key value).
Hypothesis R_separator : steps R separatorItem.

Lemma steps_add_leaf ele menu : steps R (add_leaf ele menu).
Proof.
  unfold add_leaf. apply steps_bind; [ apply R_init | intros m; apply R_setitem ].
Qed.

Lemma steps_parse_pair t sub menu :
  (forall tgt, steps R (parse_menu sub tgt)) ->
  steps R (parse_pair parse_menu t sub menu).
Proof.
  intros Hsub. unfold parse_pair.
  apply steps_bind; [ apply R_init | intros m ].
  apply steps_bind; [ apply R_setitem | intros _ ].
  apply steps_bind.
  { apply steps_same_store. intros st x st' E. exact (getitem_state _ _ _ _ _ E). }
  intros v. apply steps_bind; [ | exact Hsub ].
  apply steps_same_store. intros st x st' E. destruct v; injection E as _ <-; reflexivity.
Qed.

Lemma steps_raise {A} e : steps R (@raise store A e).
Proof. apply steps_same_store. intros st x st' E. injection E as _ <-. reflexivity. Qed.

Lemma steps_undefined {A} : steps R (@undefined store A).
Proof. apply steps_same_store. intros st x st' E. injection E as _ <-. reflexivity. Qed.

Lemma steps_sequence_element ele xs menu :
  ele = PTuple xs \/ ele = PList xs ->
  Forall (fun x => forall tgt, steps R (parse_menu x tgt)) xs ->
  steps R (parse_element parse_menu ele menu).
Proof.
  intros Hele Hxs. destruct xs as [ | a [ | b [ | c xs ] ] ].
  - destruct Hele as [ -> | -> ]; apply steps_raise.
  - destruct Hele as [ -> | -> ]; apply steps_add_leaf.
  - apply Forall_cons in Hxs as [_ Hxs]. apply Forall_cons in Hxs as [Hb _].
    destruct Hele as [ -> | -> ]; apply steps_parse_pair; exact Hb.
  - destruct Hele as [ -> | -> ]; apply steps_raise.
Qed.

(** A relation that is kept by creating a MenuItem, by one insertion and by
    making a separator is kept by the whole parser, on every declaration and
    whether it returns or raises. *)
Lemma parse_menu_steps (v : pyval) :
  (forall menu, steps R (parse_menu v menu)) /\
  (forall menu, steps R (parse_element parse_menu v menu)).
Proof.
  induction v as [ | s | z | xs IH | xs IH | kvs IH | r | i | i ]
    using pyval_nested_ind.
  - split; intros menu; [ apply steps_raise | ].
    simpl. apply steps_bind; [ exact R_separator | ].
    intros sep. destruct sep; try apply steps_undefined. apply R_setitem.
  - split; intros menu; [ | apply steps_add_leaf ].
    apply steps_for_each. intros x. apply steps_add_leaf.
  - split; intros menu; apply steps_raise.
  - split; intros menu.
    + simpl. clear -IH R_refl R_trans. induction IH as [ | x xs [_ Hx] _ IHxs ].
      * intros st y st' E. injection E as _ <-. apply R_refl.
      * rewrite for_each_cons. apply steps_bind; [ apply Hx | intros _; exact IHxs ].
    + eapply steps_sequence_element; [ left; reflexivity | ].
      eapply Forall_impl; [ exact IH | ]. intros x [Hx _]. exact Hx.
  - split; intros menu.
    + simpl. clear -IH R_refl R_trans. induction IH as [ | x xs [_ Hx] _ IHxs ].
      * intros st y st' E. injection E as _ <-. apply R_refl.
      * rewrite for_each_cons. apply steps_bind; [ apply Hx | intros _; exact IHxs ].
    + eapply steps_sequence_element; [ right; reflexivity | ].
      eapply Forall_impl; [ exact IH | ]. intros x [Hx _]. exact Hx.
  - assert (H : forall menu, steps R (parse_menu (PDict kvs) menu)).
    { intros menu. simpl. induction IH as [ | [k v] kvs [_ [Hv _]] _ IHkvs ].
      - intros st y st' E. injection E as _ <-. apply R_refl.
      - rewrite for_each_cons. apply steps_bind; [ | intros _; exact IHkvs ].
        apply steps_parse_pair. exact Hv. }
    split; exact H.
  - split; intros menu; [ apply steps_undefined | ].
    simpl. apply steps_bind; [ | intros t; apply R_setitem ].
    apply steps_same_store. unfold MenuItem_title. run_monad. intros st x st'.
    destruct (heap st !! r); intros E; injection E as _ <-; reflexivity.
  - split; intros menu; apply steps_raise.
  - split; intros menu; apply steps_raise.
Qed.

End Steps.

(** The two ways [MenuItem.__setitem__] can leave the store: untouched, or
    with one entry appended to the MenuItem and its item added to the
    NSMenu. *)
Lemma MenuItem__setitem___cases self key value st x st' :
  MenuItem__setitem__ self key value st = (x, st') ->
  st' = st \/
  exists o v,
    value = PItem v /\ heap st !! self = Some o /\
    od_contains key (items o) = false /\
    st' = set_heap (<[self := mk_item (title o) (callback o) (key_equivalent o)
                                      (Some (default [] (submenu o) ++ [v]))
                                      (items o ++ [(key, v)])]> (heap st)) st.
Proof.
  unfold MenuItem__setitem__. destruct (hashable key); run_monad;
    [ | intros E; injection E as _ <-; left; reflexivity ].
  destruct (heap st !! self) as [ o | ] eqn:Ho;
    [ | intros E; injection E as _ <-; left; reflexivity ].
  destruct (od_contains key (items o)) eqn:Hc;
    [ intros E; injection E as _ <-; left; reflexivity | ].
  destruct value; intros E; injection E as _ <-; try (left; reflexivity).
  right. exists o, r. repeat split; assumption.
Qed.

Lemma setitem_top_cases key value st x st' :
  setitem AtTop key value st = (x, st') ->
  st' = st \/
  (od_contains key (top st) = true /\ st' = set_top (od_replace key value (top st)) st) \/
  (od_contains key (top st) = false /\ st' = set_top (top st ++ [(key, value)]) st).
Proof.
  simpl. unfold OrderedDict_setitem. destruct (hashable key); simpl;
    [ | intros E; injection E as _ <-; left; reflexivity ].
  destruct (od_contains key (top st)) eqn:Hc; intros E; injection E as _ <-; right;
    [ left | right ]; split; reflexivity.
Qed.

(** X2.  For every declaration in which no MenuItem stands where a
    declaration is iterated, and however the parse ends, the NSMenu of every
    MenuItem keeps mirroring its entries: it is absent while the MenuItem
    has no entry, and otherwise lists the items of the entries in their
    order. *)
Theorem parse_menu_keeps_submenus_mirroring (D : pyval) (menu : target) (st st' : store)
    (x : outcome unit) :
  iterates_no_MenuItem D = true ->
  submenus_mirror st ->
  parse_menu D menu st = (x, st') ->
  submenus_mirror st'.
Proof.
  intros _ Hu E. revert Hu.
  refine (proj1 (parse_menu_steps (fun s s' => submenus_mirror s -> submenus_mirror s')
                  (fun _ H => H) (fun _ _ _ H1 H2 H => H2 (H1 H)) _ _ _ D)
                menu st x st' E).
  - intros t s y s' Ei Hh. injection Ei as _ <-.
    intros r o Hr. simpl in Hr.
    destruct (decide (r < length (heap s))) as [ Hlt | Hge ].
    + rewrite lookup_app_l in Hr by exact Hlt. exact (Hh r o Hr).
    + rewrite lookup_app_r in Hr by lia.
      destruct (r - length (heap s)) as [ | n ]; simpl in Hr; [ | discriminate ].
      injection Hr as <-. reflexivity.
  - intros m key value s y s' Ei Hh. destruct m as [ | r ].
    + apply setitem_top_cases in Ei as [ -> | [ [Hc ->] | [Hc ->] ] ]; exact Hh.
    + apply MenuItem__setitem___cases in Ei as [ -> | (o & v & _ & Ho & Hc & ->) ];
        [ exact Hh | ].
      intros r' o' Hr'. simpl in Hr'.
      destruct (decide (r = r')) as [ <- | Hne ].
      * rewrite list_lookup_insert_eq in Hr' by (eapply lookup_lt_Some; exact Ho).
        injection Hr' as <-. unfold submenu_mirrors. simpl.
        rewrite (Hh r o Ho). rewrite map_app. simpl.
        destruct (items o) as [ | e es ]; reflexivity.
      * rewrite list_lookup_insert_ne in Hr' by exact Hne. exact (Hh r' o' Hr').
  - intros s y s' Ei H. injection Ei as _ <-. exact H.
Qed.

Lemma grown_refl h : grown h h.
Proof.
  intros r o Ho. exists o, []. rewrite app_nil_r. repeat split. exact Ho.
Qed.

Lemma grown_trans h1 h2 h3 : grown h1 h2 -> grown h2 h3 -> grown h1 h3.
Proof.
  intros H12 H23 r o Ho.
  destruct (H12 r o Ho) as (o2 & m2 & Ho2 & Ht2 & Hc2 & Hk2 & Hi2).
  destruct (H23 r o2 Ho2) as (o3 & m3 & Ho3 & Ht3 & Hc3 & Hk3 & Hi3).
  exists o3, (m2 ++ m3). split; [ exact Ho3 | ].
  repeat split; try congruence. rewrite Hi3, Hi2, app_assoc. reflexivity.
Qed.

(** X3.  For every declaration in which no MenuItem stands where a
    declaration is iterated, and however the parse ends, it only adds: every
    MenuItem that was in the store is still there, with its title, its
    callback and its key equivalent, and its entries are still its first
    entries, in the same order. *)
Theorem parse_menu_only_adds (D : pyval) (menu : target) (st st' : store)
    (x : outcome unit) :
  iterates_no_MenuItem D = true ->
  parse_menu D menu st = (x, st') ->
  grown (heap st) (heap st').
Proof.
  intros _ E.
  refine (proj1 (parse_menu_steps (fun s s' => grown (heap s) (heap s'))
                  (fun _ => grown_refl _) (fun _ _ _ => grown_trans _ _ _) _ _ _ D)
                menu st x st' E).
  - intros t s y s' Ei. injection Ei as _ <-. simpl.
    intros r o Hr. exists o, []. rewrite app_nil_r. repeat split.
    rewrite lookup_app_l; [ exact Hr | eapply lookup_lt_Some; exact Hr ].
  - intros m key value s y s' Ei. destruct m as [ | r ].
    + apply setitem_top_cases in Ei as [ -> | [ [Hc ->] | [Hc ->] ] ]; apply grown_refl.
    + apply MenuItem__setitem___cases in Ei as [ -> | (o & v & _ & Ho & Hc & ->) ];
        [ apply grown_refl | ].
      intros r' o' Hr'. simpl.
      destruct (decide (r = r')) as [ <- | Hne ].
      * eexists _, [(key, v)].
        rewrite list_lookup_insert_eq by (eapply lookup_lt_Some; exact Ho).
        assert (o' = o) by congruence. subst o'. repeat split.
      * exists o', []. rewrite list_lookup_insert_ne by exact Hne.
        rewrite app_nil_r. repeat split. exact Hr'.
  - intros s y s' Ei. injection Ei as _ <-. apply grown_refl.
Qed.

(** ** Insertion and lookup *)

(** X4.  What was inserted can be looked up: after [menu[key] = value]
    returns, [menu[key]] returns.  In the top-level OrderedDict it is
    [value]; in a MenuItem it is the value the key had before, when it had
    one, and [value] otherwise. *)
Theorem lookup_after_insertion (menu : target) (key value : pyval) (st st' : store) :
  setitem menu key value st = (Returns tt, st') ->
  getitem menu key st'
  = match menu, getitem menu key st with
    | AtItem _, (Returns first, _) => (Returns first, st')
    | _, _ => (Returns value, st')
    end.
Proof.
  destruct menu as [ | r ].
  - simpl. unfold OrderedDict_setitem, OrderedDict_getitem.
    destruct (hashable key); simpl; [ | discriminate ].
    destruct (od_contains key (top st)) eqn:Hc; intros E; injection E as <-; simpl.
    + rewrite (od_get_replace_same _ _ _ Hc). reflexivity.
    + rewrite od_get_app. unfold od_contains in Hc.
      destruct (od_get key (top st)); [ discriminate | ].
      simpl. rewrite pyval_eqb_refl. reflexivity.
  - simpl. unfold MenuItem__setitem__, MenuItem__getitem__, OrderedDict_getitem.
    destruct (hashable key); run_monad; [ | discriminate ].
    destruct (heap st !! r) as [ o | ] eqn:Ho; [ | discriminate ].
    unfold od_contains. destruct (od_get key (items o)) as [ c | ] eqn:Hg.
    + intros E. injection E as <-. rewrite Ho, Hg. reflexivity.
    + destruct value; try discriminate. intros E. injection E as <-. simpl.
      rewrite list_lookup_insert_eq by (eapply lookup_lt_Some; exact Ho).
      simpl. rewrite od_get_app, Hg. simpl. rewrite pyval_eqb_refl. reflexivity.
Qed.

(** ** Clicks *)

(** X5.  Registration and click: once [set_callback(f)] has returned for a
    MenuItem, the action of its NSMenuItem dispatches [f] with that MenuItem
    as the event, and the action of every other item does what it did
    before. *)
Theorem click_after_set_callback (app_instance : option pyval) (r : ref) (f : callable)
    (key : string) (st st' : store) :
  MenuItem_set_callback r f key st = (Returns tt, st') ->
  MenuItem_callback_ app_instance r st'
  = _call_as_function_or_method app_instance f (PItem r) /\
  forall r', r' <> r ->
    MenuItem_callback_ app_instance r' st' = MenuItem_callback_ app_instance r' st.
Proof.
  unfold MenuItem_set_callback, MenuItem_callback_. run_monad.
  destruct (heap st !! r) as [ o | ] eqn:Ho; [ | discriminate ].
  intros E. injection E as <-. simpl. split.
  - rewrite list_lookup_insert_eq by (eapply lookup_lt_Some; exact Ho). reflexivity.
  - intros r' Hne. rewrite list_lookup_insert_ne by congruence. reflexivity.
Qed.

Lemma subscript_same_entries menuitem arg st st' :
  same_entries st st' ->
  fst (subscript menuitem arg st) = fst (subscript menuitem arg st').
Proof.
  intros Hs. destruct menuitem as [ d | v ]; simpl.
  - destruct (OrderedDict_getitem arg d); reflexivity.
  - destruct v; try reflexivity.
    + destruct (OrderedDict_getitem arg kvs); reflexivity.
    + unfold MenuItem__getitem__. run_monad. specialize (Hs r).
      destruct (heap st !! r) as [ o | ], (heap st' !! r) as [ o' | ];
        simpl in Hs; try discriminate; [ | reflexivity ].
      injection Hs as ->.
      destruct (OrderedDict_getitem arg (items o')); reflexivity.
Qed.

Lemma follow_state args : forall menuitem st x st',
  follow menuitem args st = (x, st') -> st' = st.
Proof.
  induction args as [ | a args IH ]; intros menuitem st x st'; simpl.
  - intros E. injection E as _ <-. reflexivity.
  - unfold bind. destruct (subscript menuitem a st) as [[ c | e | ] s1] eqn:Es;
      pose proof (subscript_state _ _ _ _ _ Es) as ->.
    + apply IH.
    + intros E. injection E as _ <-. reflexivity.
    + intros E. injection E as _ <-. reflexivity.
Qed.

Lemma follow_same_entries args : forall menuitem st st',
  same_entries st st' ->
  fst (follow menuitem args st) = fst (follow menuitem args st').
Proof.
  induction args as [ | a args IH ]; intros menuitem st st' Hs; simpl; [ reflexivity | ].
  unfold bind. pose proof (subscript_same_entries menuitem a st st' Hs) as Hsub.
  destruct (subscript menuitem a st) as [x s1] eqn:E1.
  destruct (subscript menuitem a st') as [x' s1'] eqn:E2.
  pose proof (subscript_state _ _ _ _ _ E1) as ->.
  pose proof (subscript_state _ _ _ _ _ E2) as ->.
  simpl in Hsub. subst x'. destruct x; [ apply IH; exact Hs | reflexivity | reflexivity ].
Qed.

(** X6.  Giving a MenuItem a new title changes the title it shows and
    nothing about where it is found: every path leads where it led before,
    so the MenuItem stays under the key it was inserted with. *)
Theorem retitling_keeps_paths (r : ref) (new_title : pyval) (st st' : store) :
  MenuItem_title_setter r new_title st = (Returns tt, st') ->
  MenuItem_title r st' = (Returns (py_str new_title), st') /\
  top st' = top st /\
  forall menuitem args, fst (follow menuitem args st') = fst (follow menuitem args st).
Proof.
  unfold MenuItem_title_setter, MenuItem_title. run_monad.
  destruct (heap st !! r) as [ o | ] eqn:Ho; [ | discriminate ].
  intros E. injection E as <-. simpl.
  assert (Hlt : r < length (heap st)) by (eapply lookup_lt_Some; exact Ho).
  split; [ rewrite list_lookup_insert_eq by exact Hlt; reflexivity | ].
  split; [ reflexivity | ].
  intros menuitem args. apply follow_same_entries. intros r'. simpl.
  destruct (decide (r = r')) as [ <- | Hne ].
  - rewrite list_lookup_insert_eq by exact Hlt. rewrite Ho. reflexivity.
  - rewrite list_lookup_insert_ne by exact Hne. reflexivity.
Qed.

Lemma last_bound_same_entries d buttons r st st' :
  same_entries st st' -> last_bound d st buttons r = last_bound d st' buttons r.
Proof.
  intros Hs. induction buttons as [ | b rest IH ]; simpl; [ reflexivity | ].
  rewrite IH. unfold resolves_to.
  rewrite (follow_same_entries (click_args b) (AtMenu d) st st' Hs). reflexivity.
Qed.

(** What one registration does when it returns: its path leads to a
    MenuItem, which gets the function; the rest of the store is kept. *)
Lemma register_click_returns b self d st st' :
  _menu self = Some d ->
  register_click b self st = (Returns tt, st') ->
  exists r o,
    fst (follow (AtMenu d) (click_args b) st) = Returns (AtValue (PItem r)) /\
    heap st !! r = Some o /\
    st' = set_heap (<[r := bound_to (click_f b) o]> (heap st)) st.
Proof.
  intros Hd. unfold register_click. rewrite Hd. unfold bind at 1.
  unfold except_KeyError_no_path.
  destruct (follow (AtMenu d) (click_args b) st) as [[ c | e | ] s1] eqn:Ef;
    pose proof (follow_state _ _ _ _ _ Ef) as ->.
  - destruct c as [ d' | v ]; [ discriminate | ].
    destruct v; try discriminate. simpl.
    unfold MenuItem_set_callback. run_monad.
    destruct (heap st !! r) as [ o | ] eqn:Ho; [ | discriminate ].
    intros E. injection E as <-. exists r, o. repeat split. exact Ho.
  - destruct (exn_cls e); try discriminate.
    destruct (join_arrow (click_args b)); discriminate.
  - discriminate.
Qed.

(** X7.  The binding loop of [run], when it returns: the path of every
    registration led to a MenuItem; each MenuItem some path leads to has the
    function of the last such registration as its callback and the empty key
    equivalent; every other MenuItem, every title, every entry and the
    top-level menu are as before. *)
Theorem bound_clicks (self : AppObj) (d : list (pyval * pyval))
    (buttons : list registration) (st st' : store) :
  _menu self = Some d ->
  run_bind_clicks self buttons st = (Returns tt, st') ->
  top st' = top st /\ seps st' = seps st /\
  length (heap st') = length (heap st) /\
  (forall b, In b buttons ->
     exists r, resolves_to d st b r = true /\ r < length (heap st)) /\
  (forall r o, heap st !! r = Some o ->
     heap st' !! r = Some match last_bound d st buttons r with
                          | Some f => bound_to f o
                          | None => o
                          end).
Proof.
  intros Hd. unfold run_bind_clicks. revert st.
  induction buttons as [ | b rest IH ]; intros st.
  - intros E. injection E as <-. repeat split; try reflexivity.
    + intros b [].
    + intros r o Ho. exact Ho.
  - rewrite for_each_cons. intros E.
    apply bind_returns in E as ([] & st1 & E1 & E2).
    destruct (register_click_returns _ _ _ _ _ Hd E1) as (rb & ob & Hf & Hob & ->).
    assert (Hlt : rb < length (heap st)) by (eapply lookup_lt_Some; exact Hob).
    assert (Hs : same_entries st (set_heap (<[rb := bound_to (click_f b) ob]> (heap st)) st)).
    { intros r'. simpl. destruct (decide (rb = r')) as [ <- | Hne ].
      - rewrite list_lookup_insert_eq by exact Hlt. rewrite Hob. reflexivity.
      - rewrite list_lookup_insert_ne by exact Hne. reflexivity. }
    destruct (IH _ E2) as (Ht & Hsep & Hlen & Hall & Hheap).
    simpl in Ht, Hsep, Hlen. rewrite length_insert in Hlen.
    split; [ exact Ht | ]. split; [ exact Hsep | ]. split; [ exact Hlen | ]. split.
    + intros b' [ <- | Hin ].
      * exists rb. split; [ | exact Hlt ]. unfold resolves_to. rewrite Hf.
        apply Nat.eqb_refl.
      * destruct (Hall b' Hin) as (r' & Hr' & Hlt'). exists r'.
        simpl in Hlt'. rewrite length_insert in Hlt'. split; [ | exact Hlt' ].
        unfold resolves_to in *.
        rewrite (follow_same_entries (click_args b') (AtMenu d) _ _ Hs). exact Hr'.
    + intros r o Ho. simpl. rewrite (last_bound_same_entries d rest r _ _ Hs).
      unfold resolves_to at 1. rewrite Hf.
      destruct (Nat.eqb_spec rb r) as [ <- | Hne ].
      * rewrite (Hheap rb (bound_to (click_f b) ob))
          by (simpl; rewrite list_lookup_insert_eq by exact Hlt; reflexivity).
        assert (o = ob) by congruence. subst o.
        destruct (last_bound _ _ rest rb); reflexivity.
      * rewrite (Hheap r o)
          by (simpl; rewrite list_lookup_insert_ne by exact Hne; exact Ho).
        destruct (last_bound _ _ rest r); reflexivity.
Qed.

(** ** The callback of a Timer *)

Lemma dict_get_app name d d' :
  dict_get name (d ++ d')
  = match dict_get name d with Some v => Some v | None => dict_get name d' end.
Proof.
  induction d as [ | [n v] d IH ]; simpl; [ reflexivity | ].
  destruct (String.eqb name n); [ reflexivity | exact IH ].
Qed.

Lemma dict_get_set_same name v d : dict_get name (dict_set name v d) = Some v.
Proof.
  unfold dict_set. destruct (dict_get name d) as [ w | ] eqn:Hg.
  - induction d as [ | [n u] d IH ]; simpl in *; [ discriminate | ].
    destruct (String.eqb name n) eqn:En; simpl; rewrite En; [ reflexivity | exact (IH Hg) ].
  - rewrite dict_get_app, Hg. simpl. rewrite String.eqb_refl. reflexivity.
Qed.

Lemma dict_get_set_other name name' v d :
  name' <> name -> dict_get name' (dict_set name v d) = dict_get name' d.
Proof.
  intros Hne. unfold dict_set. destruct (dict_get name d) as [ w | ].
  - induction d as [ | [n u] d IH ]; simpl; [ reflexivity | ].
    destruct (String.eqb name n) eqn:En; simpl.
    + apply String.eqb_eq in En. subst n.
      destruct (String.eqb name' name) eqn:En'; [ | exact IH ].
      apply String.eqb_eq in En'. contradiction.
    + destruct (String.eqb name' n); [ reflexivity | exact IH ].
  - rewrite dict_get_app. destruct (dict_get name' d); [ reflexivity | ].
    simpl. destruct (String.eqb name' name) eqn:En'; [ | reflexivity ].
    apply String.eqb_eq in En'. contradiction.
Qed.

(** X8.  Whatever state a Timer is in, after [set_callback(f)] the selector
    of its NSTimer dispatches [f] with the Timer as the event; every other
    attribute of the instance, the interval and the NSTimer (valid or not,
    and what it fired) are untouched. *)
Theorem Timer_callback_after_set_callback (app_instance : option pyval) (self : pyval)
    (f : callable) (t : TimerObj) :
  exists t',
    Timer_set_callback f t = (Returns tt, t') /\
    Timer_callback_ app_instance self t' = _call_as_function_or_method app_instance f self /\
    (forall name, name <> "*callback" ->
                  dict_get name (t_dict t') = dict_get name (t_dict t)) /\
    interval t' = interval t /\
    nstimer_valid t' = nstimer_valid t /\ nstimer_fired t' = nstimer_fired t.
Proof.
  eexists. split; [ reflexivity | ]. split; [ | split; [ | repeat split ] ].
  - unfold Timer_callback_, Timer_getattr. simpl. rewrite dict_get_set_same. reflexivity.
  - intros name Hne. simpl. apply dict_get_set_other. exact Hne.
Qed.

(** ** The status item *)

(** X9.  [_nsimage_from_file] only ever returns a file that opens: the name
    as given when that opens, and otherwise the name joined to the directory
    of the main script. *)
Theorem nsimage_file_opens (filename : pyval) (img : string) :
  _nsimage_from_file filename = Returns img ->
  file_opens img = true /\
  exists f, filename = PStr f /\
            (file_opens f = true -> img = f) /\
            (img = f \/ exists d, main_script_dir = Some d /\ img = path_join d f).
Proof.
  unfold _nsimage_from_file. destruct filename; try discriminate.
  destruct (file_opens s) eqn:Ho.
  - intros E. injection E as <-. split; [ exact Ho | ].
    exists s. repeat split. left. reflexivity.
  - destruct main_script_dir as [ d | ].
    + destruct (file_opens (path_join d s)) eqn:Ho'; [ | discriminate ].
      intros E. injection E as <-. split; [ exact Ho' | ].
      exists s. split; [ reflexivity | ]. split; [ intros Ht; congruence | ].
      right. exists d. split; reflexivity.
    + rewrite Ho. discriminate.
Qed.

(** X10.  Assigning a title that is a string or an integer always returns,
    before [run] and after it: the App holds [str(title)]; when the status
    item exists it shows that string, with its image and the menu as they
    were, and otherwise the delegate is as it was.  Name, icon and menu are
    kept. *)
Theorem title_setter_returns (t : pyval) (a : AppObj) :
  is_text t = true ->
  exists a',
    App_title_setter t a = (Returns tt, a') /\
    _title a' = PStr (py_str t) /\
    _name a' = _name a /\ _icon a' = _icon a /\ _menu a' = _menu a /\
    _nsapp a'
    = match _nsapp a with
      | Some ns =>
          match nsstatusitem ns with
          | Some si => Some (mk_nsapp (Some (mk_statusitem (Some (py_str t)) (status_image si)))
                                      (mainmenu ns))
          | None => Some ns
          end
      | None => None
      end.
Proof.
  intros Ht.
  assert (H : exists a',
             (a0 <- get ;; put (set_title (PStr (py_str t)) a0) ;;;
              except_AttributeError_pass setStatusBarTitle) a = (Returns tt, a') /\
             _title a' = PStr (py_str t) /\
             _name a' = _name a /\ _icon a' = _icon a /\ _menu a' = _menu a /\
             _nsapp a'
             = match _nsapp a with
               | Some ns =>
                   match nsstatusitem ns with
                   | Some si =>
                       Some (mk_nsapp (Some (mk_statusitem (Some (py_str t)) (status_image si)))
                                      (mainmenu ns))
                   | None => Some ns
                   end
               | None => None
               end).
  { unfold except_AttributeError_pass, setStatusBarTitle, the_statusitem. run_monad.
    destruct (_nsapp a) as [ ns | ] eqn:Hns; simpl.
    - destruct (nsstatusitem ns) as [ si | ] eqn:Hsi; simpl.
      + eexists. split; [ reflexivity | ]. simpl. repeat split.
      + eexists. split; [ reflexivity | ]. simpl. repeat split. exact Hns.
    - eexists. split; [ reflexivity | ]. simpl. repeat split. exact Hns. }
  destruct t; try exact H; discriminate.
Qed.

(** X11.  The icon setter stores the path before anything looks at the
    file.  Before [run] it returns whatever the path is.  While the status
    item exists, a file that opens becomes its image, and one that does not
    makes the setter raise the error of [_nsimage_from_file], with the status
    item as it was and [_icon] already replaced. *)
Theorem icon_setter_stores_first (icon_path : pyval) (a : AppObj) :
  icon_path <> PNone ->
  exists x a',
    App_icon_setter icon_path a = (x, a') /\
    _icon a' = icon_path /\
    _name a' = _name a /\ _title a' = _title a /\ _menu a' = _menu a /\
    match status_of a with
    | None => x = Returns tt /\ _nsapp a' = _nsapp a
    | Some si =>
        match _nsimage_from_file icon_path with
        | Returns img =>
            x = Returns tt /\
            status_of a' = Some (mk_statusitem (status_title si) (Some img)) /\
            option_map mainmenu (_nsapp a') = option_map mainmenu (_nsapp a)
        | Raises e => x = Raises e /\ _nsapp a' = _nsapp a
        | Undefined => False
        end
    end.
Proof.
  intros Hi.
  assert (H : exists x a',
             (a0 <- get ;; put (set_icon icon_path a0) ;;;
              except_AttributeError_pass setStatusBarIcon) a = (x, a') /\
             _icon a' = icon_path /\
             _name a' = _name a /\ _title a' = _title a /\ _menu a' = _menu a /\
             match status_of a with
             | None => x = Returns tt /\ _nsapp a' = _nsapp a
             | Some si =>
                 match _nsimage_from_file icon_path with
                 | Returns img =>
                     x = Returns tt /\
                     status_of a' = Some (mk_statusitem (status_title si) (Some img)) /\
                     option_map mainmenu (_nsapp a') = option_map mainmenu (_nsapp a)
                 | Raises e => x = Raises e /\ _nsapp a' = _nsapp a
                 | Undefined => False
                 end
             end).
  { unfold except_AttributeError_pass, setStatusBarIcon, the_statusitem, status_of.
    run_monad.
    destruct (_nsapp a) as [ ns | ] eqn:Hns; simpl.
    - destruct (nsstatusitem ns) as [ si | ] eqn:Hsi; simpl.
      + assert (Hnsi : forall e, _nsimage_from_file icon_path = Raises e ->
                                 exn_cls e <> AttributeError).
        { unfold _nsimage_from_file. intros e.
          destruct icon_path; try (intros E; injection E as <-; discriminate).
          destruct (file_opens s); [ discriminate | ].
          destruct (file_opens _); [ discriminate | ].
          intros E. injection E as <-. discriminate. }
        destruct (_nsimage_from_file icon_path) as [ img | e | ] eqn:Himg; simpl.
        * do 2 eexists. split; [ reflexivity | ]. simpl. repeat split.
        * specialize (Hnsi e eq_refl).
          do 2 eexists. split.
          { destruct (exn_cls e); first [ reflexivity | congruence ]. }
          simpl. repeat split. exact Hns.
        * exfalso. unfold _nsimage_from_file in Himg.
          destruct icon_path; try discriminate.
          destruct (file_opens s); [ discriminate | ].
          destruct (file_opens _); discriminate.
      + do 2 eexists. split; [ reflexivity | ]. simpl. repeat split. exact Hns.
    - do 2 eexists. split; [ reflexivity | ]. simpl. repeat split. exact Hns. }
  destruct icon_path; try exact H. contradiction.
Qed.

Lemma addItem__keeps_status (it : nsmenuitem) (a : AppObj) (x : outcome unit) (a' : AppObj) :
  addItem_ it a = (x, a') -> status_of a' = status_of a.
Proof.
  unfold addItem_, status_of. destruct (_nsapp a) as [ ns | ] eqn:Hns.
  - intros E. injection E as _ <-. reflexivity.
  - intros E. injection E as _ <-. rewrite Hns. reflexivity.
Qed.

Lemma add_items_keep_status (vs : list pyval) :
  forall (a : AppObj) (x : outcome unit) (a' : AppObj),
    for_each (fun item =>
                match call_item item with
                | Returns it => addItem_ it
                | Raises e => raise e
                | Undefined => undefined
                end) vs a = (x, a') ->
    status_of a' = status_of a.
Proof.
  induction vs as [ | v vs IH ]; intros a x a'.
  - intros E. injection E as _ <-. reflexivity.
  - rewrite for_each_cons. unfold bind.
    destruct (call_item v) as [ it | e | ].
    + destruct (addItem_ it a) as [[ [] | e | ] a1] eqn:Ea;
        pose proof (addItem__keeps_status _ _ _ _ Ea) as H1.
      * intros E. rewrite <- H1. exact (IH _ _ _ E).
      * intros E. injection E as _ <-. exact H1.
      * intros E. injection E as _ <-. exact H1.
    + intros E. injection E as _ <-. reflexivity.
    + intros E. injection E as _ <-. reflexivity.
Qed.

Lemma setStatusBarTitle_shows (a a' : AppObj) :
  setStatusBarTitle a = (Returns tt, a') ->
  exists si,
    status_of a = Some si /\
    status_of a' = Some (mk_statusitem
                           (Some match _title a with PNone => _name a | t => py_str t end)
                           (status_image si)) /\
    _name a' = _name a /\ _title a' = _title a /\ _icon a' = _icon a.
Proof.
  unfold setStatusBarTitle, the_statusitem, status_of. run_monad.
  destruct (_nsapp a) as [ ns | ]; [ | discriminate ].
  destruct (nsstatusitem ns) as [ si | ]; [ | discriminate ].
  intros E. injection E as <-. exists si. repeat split.
Qed.

Lemma setStatusBarIcon_shows (a a' : AppObj) :
  setStatusBarIcon a = (Returns tt, a') ->
  exists si img,
    status_of a = Some si /\
    _nsimage_from_file (_icon a) = Returns img /\
    status_of a' = Some (mk_statusitem (status_title si) (Some img)) /\
    _name a' = _name a /\ _title a' = _title a /\ _icon a' = _icon a.
Proof.
  unfold setStatusBarIcon, the_statusitem, status_of, bind, get, put, raise, undefined.
  destruct (_nsapp a) as [ ns | ]; [ | discriminate ].
  destruct (nsstatusitem ns) as [ si | ]; [ | discriminate ].
  destruct (_nsimage_from_file (_icon a)) as [ img | e | ]; [ | discriminate | discriminate ].
  intros E. injection E as <-. exists si, img. repeat split.
Qed.

(** X12.  What the status bar shows once the first steps of [run] have
    returned.  Without an icon it shows a title: the title of the App, or
    its name when no title was set.  With an icon it shows the image of the
    file that opened and, only when a title was set, that title. *)
Theorem status_item_after_run (a a' : AppObj) :
  run_initialize a = (Returns tt, a') ->
  exists si,
    status_of a' = Some si /\
    status_title si = match _title a, _icon a with
                      | PNone, PNone => Some (_name a)
                      | PNone, _ => None
                      | t, _ => Some (py_str t)
                      end /\
    status_image si = match _icon a with
                      | PNone => None
                      | _ =>
                          match _nsimage_from_file (_icon a) with
                          | Returns img => Some img
                          | _ => None
                          end
                      end.
Proof.
  intros E. unfold run_initialize in E.
  apply bind_returns in E as (a0 & s0 & Hget & E). injection Hget as <- <-.
  apply bind_returns in E as ([] & s1 & Hput & E). injection Hput as <-.
  unfold initializeStatusBar in E.
  apply bind_returns in E as (a0 & s0 & Hget & E). injection Hget as <- <-.
  apply bind_returns in E as ([] & s1 & Hput & E). injection Hput as <-.
  apply bind_returns in E as ([] & b & Eshow & E).
  apply bind_returns in E as ([] & b1 & Eadd & Equit).
  assert (Hkeep : status_of a' = status_of b).
  { rewrite (addItem__keeps_status _ _ _ _ Equit).
    destruct (_menu _) as [ d | ].
    - exact (add_items_keep_status _ _ _ _ Eadd).
    - injection Eadd as <-. reflexivity. }
  rewrite Hkeep. clear Hkeep Eadd Equit.
  set (a1 := set_nsapp _ (set_nsapp _ a)) in Eshow.
  assert (H1 : status_of a1 = Some (mk_statusitem None None) /\
               _name a1 = _name a /\ _title a1 = _title a /\ _icon a1 = _icon a)
    by (repeat split).
  destruct H1 as (Hs1 & Hn1 & Ht1 & Hi1).
  change (_icon (set_nsapp _ a)) with (_icon a) in Eshow.
  change (_title (set_nsapp _ a)) with (_title a) in Eshow. clearbody a1.
  destruct (_icon a) eqn:Hicon.
  1: { apply setStatusBarTitle_shows in Eshow as (si & Hsi & Hb & _).
       rewrite Hb. eexists. split; [ reflexivity | ]. simpl.
       rewrite Hs1 in Hsi. injection Hsi as <-. rewrite Ht1, Hn1.
       destruct (_title a); split; reflexivity. }
  all: apply bind_returns in Eshow as ([] & b0 & Eicon & Etitle);
    apply setStatusBarIcon_shows in Eicon as (si & img & Hsi & Himg & Hb0 & Hn0 & Ht0 & Hi0);
    rewrite Hs1 in Hsi; injection Hsi as <-;
    rewrite Hi1 in Himg; rewrite Himg;
    destruct (_title a) eqn:Htitle;
    [ injection Etitle as <-; rewrite Hb0; eexists; split; [ reflexivity | split; reflexivity ]
    | apply setStatusBarTitle_shows in Etitle as (si' & Hsi' & Hb & _);
      rewrite Hb0 in Hsi'; injection Hsi' as <-;
      rewrite Hb, Ht0, Ht1; eexists; split; [ reflexivity | split; reflexivity ] .. ].
Qed.

(** ** Window and Response *)

Lemma add_buttons_loop (names : list pyval) (w : WindowObj) :
  for_each Window_add_button names w
  = (Returns tt,
     mk_window (_default_text w) (_cancel w) (window_icon w) (messageText w)
               (informativeText w) (alert_icon w) (defaultButton w)
               (alternateButton w) (addedButtons w ++ map py_str names) (frame w)
               (stringValue w)).
Proof.
  revert w. induction names as [ | name names IH ]; intros w.
  - simpl. unfold ret. rewrite app_nil_r. destruct w. reflexivity.
  - rewrite for_each_cons. unfold bind, Window_add_button. rewrite IH. simpl.
    rewrite <- app_assoc. reflexivity.
Qed.

(** X13.  For elements and extra arguments that are strings or integers,
    [add_buttons] adds one button per element, in order, and then one per
    extra argument; a string is one button, not one per character.  With
    [None] as the first argument nothing is added, whatever the extra
    arguments; a first argument that is an integer or the separator
    attribute cannot be iterated: the call raises and adds nothing.  Nothing
    but the list of added buttons changes. *)
Theorem add_buttons_in_order (iterable : pyval) (args : list pyval) (w : WindowObj) :
  let added (names : list pyval) : outcome unit * WindowObj :=
    (Returns tt,
     mk_window (_default_text w) (_cancel w) (window_icon w) (messageText w)
               (informativeText w) (alert_icon w) (defaultButton w)
               (alternateButton w) (addedButtons w ++ map py_str names) (frame w)
               (stringValue w)) in
  match iterable with
  | PNone => Window_add_buttons iterable args w = (Returns tt, w)
  | PStr _ =>
      forallb is_text args = true ->
      Window_add_buttons iterable args w = added (iterable :: args)
  | PTuple eles | PList eles =>
      forallb is_text (eles ++ args) = true ->
      Window_add_buttons iterable args w = added (eles ++ args)
  | PDict kvs =>
      forallb is_text (map fst kvs ++ args) = true ->
      Window_add_buttons iterable args w = added (map fst kvs ++ args)
  | PInt _ | PSep _ =>
      Window_add_buttons iterable args w = (Raises (not_iterable iterable), w)
  | PItem _ | PObj _ => True
  end.
Proof.
  destruct iterable; simpl; try reflexivity; try exact I; intros _; unfold bind;
    rewrite ?add_buttons_loop; unfold Window_add_button;
    rewrite ?add_buttons_loop; simpl; rewrite ?map_app, <- ?app_assoc; reflexivity.
Qed.

(** X14.  [run] always returns.  The number it reports lies between 0 and
    998 whatever code the modal session ends with, and is that code when it
    is 0, 1 or 2; the code [1000 + k] of an added button is reported as
    [k + 1], and as [k] when the window has a Cancel button and [k] is at
    least 2.  The text reported is the one in the text field, and the text
    field is then set back to the default text; nothing else changes. *)
Theorem Window_run_response (runModal : Z) (edited : string) (w : WindowObj) :
  exists clicked,
    Window_run runModal edited w
    = (Returns (mk_response clicked edited),
       mk_window (_default_text w) (_cancel w) (window_icon w) (messageText w)
                 (informativeText w) (alert_icon w) (defaultButton w)
                 (alternateButton w) (addedButtons w) (frame w) (_default_text w)) /\
    (0 <= clicked <= 998)%Z /\
    ((0 <= runModal <= 2)%Z -> clicked = runModal) /\
    (forall k, (0 <= k <= 997)%Z -> runModal = (1000 + k)%Z ->
               clicked = if (2 <=? k)%Z && _cancel w then k else (k + 1)%Z).
Proof.
  unfold Window_run, Window_default_text_setter, bind, ret. simpl.
  eexists. split; [ reflexivity | ].
  pose proof (Z.mod_pos_bound runModal 999 ltac:(lia)) as Hb.
  split; [ | split ].
  - destruct (2 <? runModal mod 999)%Z eqn:H2; simpl; [ | lia ].
    apply Z.ltb_lt in H2. destruct (_cancel w); lia.
  - intros Hc. rewrite Z.mod_small by lia.
    destruct (2 <? runModal)%Z eqn:H2; simpl; [ | reflexivity ].
    apply Z.ltb_lt in H2. lia.
  - intros k Hk ->.
    replace ((1000 + k) mod 999)%Z with (k + 1)%Z
      by (apply (Z.mod_unique_pos _ _ 1); lia).
    destruct (2 <? k + 1)%Z eqn:H2, (2 <=? k)%Z eqn:H3; simpl;
      try apply Z.ltb_lt in H2; try apply Z.ltb_ge in H2;
      try apply Z.leb_le in H3; try apply Z.leb_gt in H3; try lia;
      destruct (_cancel w); lia.
Qed.

Lemma string_length_append (s t : string) :
  String.length (s ++ t) = String.length s + String.length t.
Proof. induction s as [ | c s IH ]; simpl; [ reflexivity | rewrite IH; reflexivity ]. Qed.

Lemma string_length_substring (n : nat) (s : string) :
  n <= String.length s -> String.length (String.substring 0 n s) = n.
Proof.
  revert s. induction n as [ | n IH ]; intros s Hn.
  - destruct s; reflexivity.
  - destruct s as [ | c s ]; simpl in *; [ lia | ]. rewrite IH by lia. reflexivity.
Qed.

Lemma substring_append_prefix (n : nat) (s t : string) :
  n <= String.length s -> String.substring 0 n (s ++ t) = String.substring 0 n s.
Proof.
  revert s. induction n as [ | n IH ]; intros s Hn.
  - destruct s; simpl; [ destruct t | ]; reflexivity.
  - destruct s as [ | c s ]; simpl in *; [ lia | ]. rewrite IH by lia. reflexivity.
Qed.

Lemma substring_substring (n m : nat) (s : string) :
  n <= m -> String.substring 0 n (String.substring 0 m s) = String.substring 0 n s.
Proof.
  revert m s. induction n as [ | n IH ]; intros m s Hn.
  - destruct m, s; reflexivity.
  - destruct m as [ | m ]; [ lia | ]. destruct s as [ | c s ]; simpl; [ reflexivity | ].
    rewrite IH by lia. reflexivity.
Qed.

(** X15.  The text shown by the representation of a Response is never
    longer than 20 characters: a text of at most 20 characters is shown as
    it is, and only such a text; a longer one is shown as 20 characters that
    begin with its first 17. *)
Theorem shortened_text_bounds (text : string) :
  String.length (shortened_text text) = Nat.min (String.length text) 20 /\
  (shortened_text text = text <-> String.length text <= 20) /\
  String.substring 0 17 (shortened_text text) = String.substring 0 17 text.
Proof.
  unfold shortened_text. destruct (Nat.ltb_spec (String.length text) 21) as [ Hlt | Hge ].
  - split; [ lia | ]. split; [ split; [ lia | reflexivity ] | reflexivity ].
  - assert (Hl : String.length (String.substring 0 17 text ++ "...") = 20).
    { rewrite string_length_append, string_length_substring by lia. reflexivity. }
    split; [ lia | ]. split.
    + split; [ intros E; rewrite E in Hl; lia | lia ].
    + rewrite substring_append_prefix by (rewrite string_length_substring; lia).
      apply substring_substring. lia.
Qed.

(** ** Notifications *)

Lemma dispatch_first_call (app_instance : option pyval) (f : callable) (event : pyval) :
  exists rest, fst (_call_as_function_or_method app_instance f event) = [event] :: rest.
Proof.
  unfold _call_as_function_or_method.
  destruct (py_call f [event]) as [ r | e | ];
    [ | destruct (is_TypeError e); [ destruct app_instance | ] | ];
    eexists; reflexivity.
Qed.

(** X16.  From [notification] to the notification center function: data
    that is a dictionary is scheduled as the user info of the notification,
    and no data as the empty dictionary; when that notification is
    activated, the registered function is first called with exactly that
    dictionary, and the notification is removed from the delivered ones.
    Data of any other kind that is not a mapping raises TypeError and
    nothing is scheduled. *)
Theorem notification_data_round_trip (title subtitle message : string) (data : pyval)
    (sound : bool) (sent : list center_message) :
  match data with
  | PItem _ => True
  | PNone | PDict _ =>
      let kvs := match data with PDict kvs => kvs | _ => [] end in
      exists n,
        notification title subtitle message data sound sent
        = (Returns tt, sent ++ [scheduleNotification_ n]) /\
        n_title n = title /\ n_subtitle n = subtitle /\ n_informativeText n = message /\
        forall f old app_instance sent',
          exists rest x,
            didActivateNotification_ (notifications f old) app_instance n sent'
            = ((([PDict kvs] :: rest), x), sent' ++ [removeDeliveredNotification_ n])
  | _ =>
      notification title subtitle message data sound sent = (Raises data_not_a_mapping, sent)
  end.
Proof.
  destruct data; try reflexivity; try exact I;
    (eexists; split; [ reflexivity | ]; repeat split;
     intros f old app_instance sent';
     unfold didActivateNotification_, notifications; cbn [n_userInfo];
     match goal with
     | |- context [ _call_as_function_or_method ?i ?g ?d ] =>
         destruct (dispatch_first_call i g d) as [rest ->]
     end;
     do 2 eexists; reflexivity).
Qed.

(** X17.  Activating a notification never raises AttributeError.  With no
    function registered it returns without calling anything; a result of the
    registered function is dropped; an AttributeError the function raises is
    swallowed like the missing registration; any other error that is not a
    TypeError reaches the caller after the single call. *)
Theorem activation_swallows_AttributeError (notification_center : option callable)
    (app_instance : option pyval) (n : NSUserNotificationObj) (sent : list center_message) :
  let data := PDict (n_userInfo n) in
  let calls := fst (fst (didActivateNotification_ notification_center app_instance n sent)) in
  let x := snd (fst (didActivateNotification_ notification_center app_instance n sent)) in
  (forall e, x = Raises e -> exn_cls e <> AttributeError) /\
  (notification_center = None -> calls = [] /\ x = Returns tt) /\
  (forall f r, notification_center = Some f -> py_call f [data] = Returns r ->
               calls = [[data]] /\ x = Returns tt) /\
  (forall f e, notification_center = Some f -> py_call f [data] = Raises e ->
               is_TypeError e = false ->
               calls = [[data]] /\
               x = match exn_cls e with AttributeError => Returns tt | _ => Raises e end).
Proof.
  unfold didActivateNotification_. cbn [fst snd]. split; [ | split; [ | split ] ].
  - intros e. destruct (snd _) as [ r | e' | ]; try discriminate.
    destruct (exn_cls e') eqn:Hc; try discriminate; intros E; injection E as <-;
      rewrite Hc; discriminate.
  - intros ->. split; reflexivity.
  - intros f r -> Hr. unfold _call_as_function_or_method. rewrite Hr. split; reflexivity.
  - intros f e -> He Ht. unfold _call_as_function_or_method. rewrite He, Ht.
    split; reflexivity.
Qed.

(** ** Declarations made of titles *)

Lemma titles_build (titles : list string) : forall st,
  for_each (fun ele => parse_element parse_menu ele AtTop) (map PStr titles) st
  = (Returns tt,
     snd (for_each (fun ele => parse_element parse_menu ele AtTop) (map PStr titles) st)) /\
  heap (snd (for_each (fun ele => parse_element parse_menu ele AtTop) (map PStr titles) st))
  = heap st ++ map (fun t => mk_item t None "" None []) titles.
Proof.
  induction titles as [ | t titles IH ]; intros st.
  - simpl. rewrite app_nil_r. split; reflexivity.
  - change (map PStr (t :: titles)) with (PStr t :: map PStr titles).
    rewrite for_each_cons. unfold bind.
    assert (H1 : exists d,
               parse_element parse_menu (PStr t) AtTop st
               = (Returns tt, mk_store (heap st ++ [mk_item t None "" None []]) d (seps st))).
    { simpl. unfold add_leaf, MenuItem__init__, bind. simpl.
      unfold OrderedDict_setitem. simpl.
      destruct (od_contains _ _); eexists; reflexivity. }
    destruct H1 as [d ->]. destruct (IH (mk_store (heap st ++ [mk_item t None "" None []])
                                                  d (seps st))) as [-> ->].
    simpl. rewrite <- app_assoc. split; reflexivity.
Qed.

Lemma sequence_keys_titles h n (titles : list string) :
  sequence_keys h n (map PStr titles) = map PStr titles.
Proof.
  revert n. induction titles as [ | t titles IH ]; intros n; simpl; [ reflexivity | ].
  rewrite IH. reflexivity.
Qed.

(** X18.  A declaration that is a list of titles always builds.  The keys
    of the menu are the titles in the order of their first occurrence, and
    one MenuItem is made for each title of the list, repeated ones
    included, titled by it and with no callback and no entry. *)
Theorem list_of_titles_builds (titles : list string) (self : AppObj) (st : store) :
  exists self' st',
    App_menu_setter (PList (map PStr titles)) self st = (Returns self', st') /\
    _menu self' = Some (top st') /\
    od_keys (top st') = first_occurrences (map PStr titles) /\
    heap st' = heap st ++ map (fun t => mk_item t None "" None []) titles.
Proof.
  assert (H : exists self' st',
             App_menu_setter (PList (map PStr titles)) self st = (Returns self', st') /\
             _menu self' = Some (top st') /\
             heap st' = heap st ++ map (fun t => mk_item t None "" None []) titles).
  { unfold App_menu_setter. unfold bind at 1. unfold get. unfold bind at 1. unfold put.
    unfold bind at 1. simpl parse_menu.
    destruct (titles_build titles (set_top [] st)) as [-> Hh].
    unfold bind, get, ret. do 2 eexists. split; [ reflexivity | ].
    split; [ reflexivity | exact Hh ]. }
  destruct H as (self' & st' & E & Hm & Hh). exists self', st'.
  split; [ exact E | ]. split; [ exact Hm | ]. split; [ | exact Hh ].
  pose proof (top_level_keys_follow_declaration _ _ _ _ _ E) as Hk.
  rewrite Hm in Hk. destruct Hk as [_ Hk]. rewrite Hk. simpl.
  rewrite sequence_keys_titles. reflexivity.
Qed.

Lemma for_each_chars (s : string) (menu : target) (st : store) :
  for_each (fun ele => parse_element parse_menu ele menu) (chars s) st
  = for_each (fun ele => add_leaf ele menu) (chars s) st.
Proof.
  revert st. induction s as [ | c s IH ]; intros st; [ reflexivity | ].
  simpl chars. rewrite !for_each_cons. unfold bind. simpl parse_element.
  destruct (add_leaf _ menu st) as [[ [] | e | ] st1]; [ apply IH | reflexivity | reflexivity ].
Qed.

(** X19.  A string given as a declaration, for the whole menu or for a
    submenu, is read as the list of its characters: the parse does what it
    does on the list of the one-character titles. *)
Theorem string_declaration_is_split (s : string) (menu : target) (self : AppObj)
    (st : store) :
  parse_menu (PStr s) menu st = parse_menu (PList (chars s)) menu st /\
  App_menu_setter (PStr s) self st = App_menu_setter (PList (chars s)) self st.
Proof.
  split.
  - simpl. symmetry. apply for_each_chars.
  - unfold App_menu_setter, bind, get, put. simpl parse_menu.
    rewrite for_each_chars. reflexivity.
Qed.

(** ** What a Window keeps *)

(** X20.  From its creation on and whatever methods are called on it, with
    whatever outcome, a Window is in step with its alert and its text field
    between calls: the text field shows the default text, and the alert has
    the Cancel button exactly when [_cancel] is set, which is what [run]
    relies on when it renumbers the buttons. *)
Theorem Window_stays_in_step (message title : pyval) (default_text : string)
    (ok : option string) (cancel : bool) (dimensions : Z * Z) (calls : list Window_call) :
  let w := fold_left Window_after calls
                     (Window__init__ message title default_text ok cancel dimensions) in
  stringValue w = _default_text w /\
  _cancel w = cancel /\
  alternateButton w = (if cancel then Some "Cancel" else None) /\
  defaultButton w = ok /\ frame w = dimensions.
Proof.
  cbv zeta.
  assert (Hinit : let w := Window__init__ message title default_text ok cancel dimensions in
                  stringValue w = _default_text w /\ _cancel w = cancel /\
                  alternateButton w = (if cancel then Some "Cancel" else None) /\
                  defaultButton w = ok /\ frame w = dimensions).
  { simpl. destruct (String.eqb_spec default_text ""); repeat split; congruence. }
  cbv zeta in Hinit. revert Hinit.
  generalize (Window__init__ message title default_text ok cancel dimensions).
  induction calls as [ | c calls IH ]; intros w Hw; [ exact Hw | ].
  simpl. apply IH. destruct Hw as (H1 & H2 & H3 & H4 & H5).
  destruct c; simpl; try (repeat split; assumption).
  - unfold Window_icon_setter. destruct (_nsimage_from_file icon_path); simpl;
      repeat split; assumption.
  - unfold Window_add_buttons.
    destruct iterable; simpl; unfold bind; simpl;
      rewrite ?add_buttons_loop; simpl; try (repeat split; assumption).
    all: unfold Window_add_button; rewrite ?add_buttons_loop; simpl;
      repeat split; assumption.
Qed.

End Rumps.

(** * Concrete runs *)

Example preferences_store_built :
  parse_menu example_repr example_ids
             (PList [PTuple [PStr "Preferences"; PList [PStr "General"; PStr "Advanced"]]])
             AtTop empty_store
  = (Returns tt, preferences_store).
Proof. reflexivity. Qed.

(** The scenario of the specification: a mapping, a separator and a leaf
    give three top-level entries in that order. *)
Example scenario_three_entries :
  od_keys (top (snd (parse_menu example_repr example_ids
                       (PList [PDict [(PStr "Preferences",
                                       PList [PStr "General"; PStr "Advanced"])];
                               PNone; PStr "Quit"])
                       AtTop empty_store)))
  = [PStr "Preferences"; PStr "4391"; PStr "Quit"].
Proof. reflexivity. Qed.

Lemma assignment_under_present_title_is_ignored_witness :
  MenuItem__setitem__ 0 (PStr "General") (PInt 7) preferences_store
  = (Returns tt, preferences_store).
Proof.
  apply (assignment_under_present_title_is_ignored 0 "General" (PInt 7) preferences_store
           (mk_item "Preferences" None "" (Some [1; 2])
                    [(PStr "General", 1); (PStr "Advanced", 2)]));
    reflexivity.
Defined.

Example second_insertion_in_submenu_example :
  setitem (AtItem 0) (PStr "General") (PItem 2) preferences_store
  = (Returns tt, preferences_store).
Proof.
  apply (second_insertion_under_same_key (AtItem 0) (PStr "General") (PItem 1) (PItem 2)
           preferences_store preferences_store).
  reflexivity.
Qed.

(** C1, where the code departs from it: at the top level the second
    insertion wins.  After [[('A', ['x'])]] the key ['A'] holds the MenuItem
    0 with its child; in [[('A', ['x']), 'A']] the second insertion under
    ['A'] leaves a store in which ['A'] holds the new, childless MenuItem 2,
    so the tree is not the tree after the first insertion. *)
Theorem top_level_second_insertion_replaces :
  let first := parse_menu example_repr example_ids
                          (PList [PTuple [PStr "A"; PList [PStr "x"]]]) AtTop empty_store in
  let both := parse_menu example_repr example_ids
                         (PList [PTuple [PStr "A"; PList [PStr "x"]]; PStr "A"])
                         AtTop empty_store in
  fst first = Returns tt /\ fst both = Returns tt /\
  od_get (PStr "A") (top (snd first)) = Some (PItem 0) /\
  od_get (PStr "A") (top (snd both)) = Some (PItem 2) /\
  option_map items (heap (snd both) !! 0) = Some [(PStr "x", 1)] /\
  option_map items (heap (snd both) !! 2) = Some [] /\
  setitem AtTop (PStr "A") (PItem 2) (snd first)
  <> (Returns tt, snd first).
Proof. repeat split. discriminate. Qed.

Lemma preferences_store_ordered : ordered (heap preferences_store).
Proof.
  intros r o k c Hr Hin.
  destruct r as [ | [ | [ | r ] ] ]; simpl in Hr; try discriminate;
    injection Hr as <-; simpl in Hin.
  - destruct Hin as [ E | [ E | [] ] ]; injection E as _ <-; simpl; lia.
  - destruct Hin.
  - destruct Hin.
Defined.

Lemma menu_keys_follow_declaration_order_witness :
  od_keys (top preferences_store)
  = first_occurrences
      (declared_keys example_ids (heap preferences_store) 0
         (PList [PTuple [PStr "Preferences"; PList [PStr "General"; PStr "Advanced"]]]))
  /\
  exists o',
    heap (snd (parse_menu example_repr example_ids
                          (PList [PStr "Advanced"; PStr "Dark"; PStr "Advanced"])
                          (AtItem 0) preferences_store)) !! 0 = Some o' /\
    od_keys (items o') = [PStr "General"; PStr "Advanced"; PStr "Dark"].
Proof.
  split.
  - exact (proj2 (proj1 (menu_keys_follow_declaration_order example_repr example_ids
                           (PList [PTuple [PStr "Preferences";
                                           PList [PStr "General"; PStr "Advanced"]]]))
                        new_app
                        (mk_app "demo" PNone PNone (Some (top preferences_store)) None)
                        empty_store preferences_store eq_refl)).
  - exact (proj2 (menu_keys_follow_declaration_order example_repr example_ids
                    (PList [PStr "Advanced"; PStr "Dark"; PStr "Advanced"]))
                 0 _ preferences_store _ eq_refl preferences_store_ordered
                 eq_refl eq_refl).
Defined.

(** C5, where the code departs from it.  [[('A', ['x']), ('A', ['y'])]] is
    made of pairs of a title and a nested declaration; read depth-first in
    first-occurrence order it names ['A'], then ['x'] and ['y'] below it.
    The menu setter returns, and the tree it leaves iterates as ['A'] with
    the only child ['y']: at the top level the second pair has put a new
    MenuItem under ['A'], and the first one, with its child ['x'], is not in
    the tree any more.  The same two pairs declared for a submenu give
    ['A'] the children ['x'] and ['y'], in that order. *)
Theorem repeated_title_at_top_level_loses_children :
  let D := PList [PTuple [PStr "A"; PList [PStr "x"]];
                  PTuple [PStr "A"; PList [PStr "y"]]] in
  (exists self' st' r o,
      App_menu_setter example_repr example_ids D new_app empty_store = (Returns self', st') /\
      _menu self' = Some (top st') /\
      top st' = [(PStr "A", PItem r)] /\
      heap st' !! r = Some o /\
      od_keys (items o) = [PStr "y"] /\
      od_keys (items o) <> [PStr "x"; PStr "y"]) /\
  (exists self' st' m below r o,
      App_menu_setter example_repr example_ids (PList [PTuple [PStr "M"; D]])
                      new_app empty_store = (Returns self', st') /\
      _menu self' = Some (top st') /\
      top st' = [(PStr "M", PItem m)] /\
      heap st' !! m = Some below /\
      items below = [(PStr "A", r)] /\
      heap st' !! r = Some o /\
      od_keys (items o) = [PStr "x"; PStr "y"]).
Proof.
  split.
  - do 4 eexists. repeat split; try reflexivity. discriminate.
  - do 6 eexists. repeat split; reflexivity.
Qed.

Lemma separator_insertion_at_top_level_witness :
  parse_element example_repr example_ids (parse_menu example_repr example_ids)
                PNone AtTop preferences_store
  = (Returns tt,
     mk_store (heap preferences_store)
              [(PStr "Preferences", PItem 0); (PStr "4391", PSep 4391)] 1).
Proof.
  exact (proj1 (separator_insertion_at_top_level example_repr example_ids
                  preferences_store eq_refl)).
Defined.

(** C3 fails when a title is the decimal string of the separator's id: in
    [['4391', None]] the separator takes the key of the leaf, and the menu
    has one entry, the separator. *)
Lemma separator_key_collides_with_title :
  let built := parse_menu example_repr example_ids
                          (PList [PStr "4391"; PNone]) AtTop empty_store in
  fst built = Returns tt /\
  top (snd built) = [(PStr "4391", PSep 4391)] /\
  title_in (heap (snd built)) 0 = "4391" /\
  od_get (PStr "4391") (top (snd built)) <> Some (PItem 0).
Proof. repeat split. discriminate. Qed.

(** The slip next to it: [[('A', [None])]] does not build. *)
Example separator_in_submenu_example :
  fst (parse_menu example_repr example_ids
                  (PList [PTuple [PStr "A"; PList [PNone]]]) AtTop empty_store)
  = Raises (not_a_MenuItem (PSep 4391)).
Proof. reflexivity. Qed.

(** C7 at its failing input: [[['Only']]] does not build. *)
Example list_of_length_one_example :
  fst (App_menu_setter example_repr example_ids (PList [PList [PStr "Only"]])
                       new_app empty_store)
  = Raises (unhashable (PList [PStr "Only"])).
Proof. reflexivity. Qed.

Example tuple_of_length_one_example :
  od_keys (top (snd (parse_menu example_repr example_ids
                       (PList [PTuple [PStr "Only"]]) AtTop empty_store)))
  = [PTuple [PStr "Only"]].
Proof. reflexivity. Qed.

Example bad_arity_example :
  fst (parse_menu example_repr example_ids
                  (PList [PStr "a"; PList [PStr "b"; PStr "c"; PStr "d"]]) AtTop empty_store)
  = Raises (bad_shape (PList [PStr "b"; PStr "c"; PStr "d"]) 3).
Proof. reflexivity. Qed.

(** C2 fails on a callback of one parameter whose body raises a TypeError
    of its own: the error of the body is not what the caller gets; the
    callback is called a second time, with the running App first, and the
    caller gets the TypeError of that call, which did not bind. *)
Lemma body_TypeError_is_retried :
  accepts failing_callback 1 = true /\
  _call_as_function_or_method (Some (PObj 1)) failing_callback (PItem 0)
  = ([[PItem 0]; [PObj 1; PItem 0]], Raises (arity_error 2)) /\
  snd (_call_as_function_or_method (Some (PObj 1)) failing_callback (PItem 0))
  <> py_call failing_callback [PItem 0].
Proof. repeat split. discriminate. Qed.

Lemma unresolved_click_path_raises_witness :
  run_bind_clicks (mk_app "demo" PNone PNone (Some (top preferences_store)) None)
                  (clicked (map PStr (["Preferences"] ++ "Colours" :: ["Dark"]))
                           failing_callback [] ++ [])
                  preferences_store
  = (Raises (no_path_exists "Preferences -> Colours -> Dark"), preferences_store).
Proof.
  apply (unresolved_click_path_raises
           (mk_app "demo" PNone PNone (Some (top preferences_store)) None)
           (top preferences_store) ["Preferences"] "Colours" ["Dark"] failing_callback
           [] [] preferences_store preferences_store (AtValue (PItem 0))
           [PStr "General"; PStr "Advanced"]);
    reflexivity.
Defined.



(** C4 at its failing input: a Timer that has just been made. *)
Example Timer_stop_example :
  fst (Timer_stop (Timer__init__ failing_callback (1 # 10))) = Raises (no_attribute "start").
Proof. reflexivity. Qed.

(** ** The invariants of the store, on the store of the example *)

Lemma preferences_store_mirrors : submenus_mirror preferences_store.
Proof.
  intros r o Hr.
  destruct r as [ | [ | [ | r ] ] ]; simpl in Hr; try discriminate;
    injection Hr as <-; reflexivity.
Defined.

Lemma parse_menu_keeps_submenus_mirroring_witness :
  submenus_mirror (snd (parse_menu example_repr example_ids
                                   (PList [PStr "Advanced"; PStr "Dark"; PNone])
                                   (AtItem 0) preferences_store)).
Proof.
  apply (parse_menu_keeps_submenus_mirroring example_repr example_ids
           (PList [PStr "Advanced"; PStr "Dark"; PNone]) (AtItem 0) preferences_store
           _ (Raises (not_a_MenuItem (PSep 4391))) eq_refl preferences_store_mirrors).
  reflexivity.
Defined.

Lemma parse_menu_only_adds_witness :
  grown (heap preferences_store)
        (heap (snd (parse_menu example_repr example_ids
                               (PList [PStr "Advanced"; PStr "Dark"; PNone])
                               (AtItem 0) preferences_store))).
Proof.
  apply (parse_menu_only_adds example_repr example_ids
           (PList [PStr "Advanced"; PStr "Dark"; PNone]) (AtItem 0) preferences_store
           _ (Raises (not_a_MenuItem (PSep 4391))) eq_refl).
  reflexivity.
Defined.

(** ** Insertion, lookup and clicks on the store of the example *)

(** ['General'] is assigned again under ['Preferences']: the lookup gives
    the MenuItem that was there. *)
Lemma lookup_after_insertion_witness :
  getitem (AtItem 0) (PStr "General") preferences_store
  = (Returns (PItem 1), preferences_store).
Proof.
  exact (lookup_after_insertion (AtItem 0) (PStr "General") (PItem 2)
           preferences_store preferences_store eq_refl).
Defined.

Lemma click_after_set_callback_witness :
  MenuItem_callback_ None 1
    (set_heap (<[1 := mk_item "General" (Some quiet_callback) "g" None []]>
                 (heap preferences_store)) preferences_store)
  = ([[PItem 1]], Returns PNone).
Proof.
  exact (proj1 (click_after_set_callback None 1 quiet_callback "g" preferences_store
                  _ eq_refl)).
Defined.

Lemma retitling_keeps_paths_witness :
  MenuItem_title 1 (snd (MenuItem_title_setter example_repr 1 (PStr "Common")
                                               preferences_store))
  = (Returns "Common",
     snd (MenuItem_title_setter example_repr 1 (PStr "Common") preferences_store)) /\
  fst (follow (AtMenu (top preferences_store)) [PStr "Preferences"; PStr "General"]
              (snd (MenuItem_title_setter example_repr 1 (PStr "Common")
                                          preferences_store)))
  = Returns (AtValue (PItem 1)).
Proof.
  destruct (retitling_keeps_paths example_repr 1 (PStr "Common") preferences_store
              _ eq_refl) as (Ht & _ & Hf).
  split; [ exact Ht | ].
  exact (Hf (AtMenu (top preferences_store)) [PStr "Preferences"; PStr "General"]).
Defined.

(** Two functions registered for the same path: the item is bound to the
    second. *)
Lemma bound_clicks_witness :
  heap (snd (run_bind_clicks
               (mk_app "demo" PNone PNone (Some (top preferences_store)) None)
               (clicked [PStr "Preferences"; PStr "General"] quiet_callback
                  (clicked [PStr "Preferences"; PStr "General"] failing_callback []))
               preferences_store)) !! 1
  = Some (mk_item "General" (Some quiet_callback) "" None []).
Proof.
  exact (proj2 (proj2 (proj2 (proj2
           (bound_clicks (mk_app "demo" PNone PNone (Some (top preferences_store)) None)
              (top preferences_store)
              (clicked [PStr "Preferences"; PStr "General"] quiet_callback
                 (clicked [PStr "Preferences"; PStr "General"] failing_callback []))
              preferences_store _ eq_refl eq_refl))))
           1 (mk_item "General" None "" None []) eq_refl).
Defined.

(** ** The status item, concretely *)

(** The literal name does not open; the file next to the main script
    does. *)
Lemma nsimage_file_opens_witness :
  only_app_icon "/app/icon.png" = true /\
  exists f, PStr "icon.png" = PStr f /\
            (only_app_icon f = true -> "/app/icon.png" = f) /\
            ("/app/icon.png" = f \/
             exists d, Some "/app" = Some d /\ "/app/icon.png" = slash_join d f).
Proof.
  exact (nsimage_file_opens only_app_icon (Some "/app") slash_join (PStr "icon.png")
           "/app/icon.png" eq_refl).
Defined.

Lemma title_setter_returns_witness :
  exists a',
    App_title_setter example_repr (PInt 5) running_app = (Returns tt, a') /\
    _title a' = PStr "5" /\
    status_of a' = Some (mk_statusitem (Some "5") None).
Proof.
  destruct (title_setter_returns example_repr (PInt 5) running_app eq_refl)
    as (a' & Hrun & Ht & _ & _ & _ & Hns).
  exists a'. split; [ exact Hrun | ]. split; [ exact Ht | ].
  unfold status_of. rewrite Hns. reflexivity.
Defined.

(** While the App runs, an icon that does not open: the setter raises and
    the App already names the file. *)
Lemma icon_setter_stores_first_witness :
  exists x a',
    App_icon_setter no_file None slash_join (PStr "missing.png") running_app = (x, a') /\
    _icon a' = PStr "missing.png" /\
    x = Raises (mk_exn IOError "No such file or directory: '{}'" [PStr "missing.png"]) /\
    _nsapp a' = _nsapp running_app.
Proof.
  destruct (icon_setter_stores_first no_file None slash_join (PStr "missing.png")
              running_app ltac:(discriminate))
    as (x & a' & Hrun & Hi & _ & _ & _ & Hx & Hns).
  exists x, a'. repeat split; assumption.
Defined.

Lemma status_item_after_run_witness :
  exists si,
    status_of (snd (run_initialize example_repr no_file None slash_join new_app)) = Some si /\
    status_title si = Some "demo" /\
    status_image si = None.
Proof.
  exact (status_item_after_run example_repr no_file None slash_join new_app _ eq_refl).
Defined.

(** ** Rendering and stopping, concretely *)

Lemma menu_setter_values_render_witness :
  exists entries,
    Forall2 (fun v it => call_item v = Returns it)
            [PItem 0; PSep 4391] entries.
Proof.
  exact (menu_setter_values_render example_repr example_ids
           (PList [PStr "A"; PNone]) new_app
           (mk_app "demo" PNone PNone (Some [(PStr "A", PItem 0); (PStr "4391", PSep 4391)])
                   None)
           empty_store
           (mk_store [mk_item "A" None "" None []]
                     [(PStr "A", PItem 0); (PStr "4391", PSep 4391)] 1)
           eq_refl eq_refl).
Defined.

(** A Timer that was given an attribute [start] of its own: [stop]
    returns. *)
Lemma Timer_stop_returns_iff_witness :
  (exists t',
     Timer_stop (snd (Timer_setattr "start" (AMethod "start")
                                    (Timer__init__ quiet_callback (1 # 10))))
     = (Returns tt, t')) <->
  (exists v,
     dict_get "start"
              (t_dict (snd (Timer_setattr "start" (AMethod "start")
                                          (Timer__init__ quiet_callback (1 # 10)))))
     = Some v).
Proof.
  exact (Timer_stop_returns_iff
           (snd (Timer_setattr "start" (AMethod "start")
                               (Timer__init__ quiet_callback (1 # 10))))
           eq_refl).
Defined.

(** ** Buttons, concretely *)

Lemma add_buttons_in_order_witness :
  Window_add_buttons example_repr (PList [PStr "Yes"; PInt 2]) [PStr "Later"]
    (Window__init__ example_repr (PStr "Save the file?") (PStr "demo") "" None true
                    (320, 160)%Z)
  = (Returns tt,
     mk_window "" true PNone "demo" "Save the file?" None None (Some "Cancel")
               ["Yes"; "2"; "Later"] (320, 160)%Z "").
Proof.
  exact (add_buttons_in_order example_repr (PList [PStr "Yes"; PInt 2]) [PStr "Later"]
           (Window__init__ example_repr (PStr "Save the file?") (PStr "demo") "" None true
                           (320, 160)%Z)
           eq_refl).
Defined.
